(** * class-plus: a shallow embedding of [class.js]

    The development follows the layout of the source file:
    - JavaScript values, objects with ordered own keys, truthiness;
    - the regular expressions the class builder matches keys and method
      sources against;
    - [asyncify], the callback-to-promise converter;
    - [Class], the class builder (statics, asyncify pass, mixins, hook
      finalisation, instance defaults);
    - [HookHelper.fireHook], run on an explicit task queue. *)

From Stdlib Require Import ZArith Ascii String List Bool Lia.
From stdpp Require Import base option list strings pretty gmap.
Import ListNotations.
Local Open Scope string_scope.
Set Warnings "-register-all".

(** ** Values *)

(** The settlement state of a promise. *)
Inductive settled (V : Type) : Type :=
| Pending
| Resolved (v : V)
| Rejected (e : V).
Arguments Pending {V}.
Arguments Resolved {V} v.
Arguments Rejected {V} e.

(** JavaScript values, as far as [class.js] looks at them.

    - [VFun]: a function the user wrote that has no [prototype] to mix
      in (a method, an arrow or an async function), known by an
      identity, its source text (what [toString()] returns), whether
      its [constructor.name] is ["AsyncFunction"], and its [__async]
      property.
    - [VWrapped]: the closure [asyncify(origFunc, argNames)] returns.
      It is declared [async function(...args)], so its constructor
      name is ["AsyncFunction"] as well.
    - [VCompletion]: the completion callback that closure synthesizes
      for the original method; [VNext i]: the completion callback
      [fireHook] hands to its listener number [i].
    - [VClass]: a class or constructor function, with its source text,
      its static table (own properties of the function), the
      properties it inherits statically, its instance template (own
      properties of [prototype]) and the properties the template
      inherits through its prototype chain.
    - [VRegExp]: a pattern, by the keys it matches. *)
Inductive value : Type :=
| VUndef
| VNull
| VBool (b : bool)
| VNum (n : Z)
| VStr (s : string)
| VArr (items : list value)
| VObj (fields : list (string * value))
| VRegExp (test : string -> bool)
| VPromise (st : settled value)
| VFun (id : nat) (src : string) (is_async : bool) (marker : bool)
| VWrapped (orig : value) (argNames : value) (marker : bool)
| VCompletion (argNames : value)
| VNext (i : nat)
| VClass (src : string)
         (statics : list (string * value)) (static_chain : list (string * value))
         (proto : list (string * value)) (proto_chain : list (string * value)).

(** Objects keep their own keys in insertion order. *)
Abbreviation obj := (list (string * value)).

(** ToBoolean. *)
Definition truthy (v : value) : bool :=
  match v with
  | VUndef | VNull => false
  | VBool b => b
  | VNum n => negb (n =? 0)%Z
  | VStr s => negb (String.eqb s "")
  | _ => true
  end.

(** [typeof v == 'function'] *)
Definition is_function (v : value) : bool :=
  match v with
  | VFun _ _ _ _ | VWrapped _ _ _ | VCompletion _ | VNext _
  | VClass _ _ _ _ _ => true
  | _ => false
  end.

(** [typeof v == 'object'] (which holds of [null] too). *)
Definition is_object (v : value) : bool :=
  match v with
  | VNull | VArr _ | VObj _ | VRegExp _ | VPromise _ => true
  | _ => false
  end.

(** [v.constructor.name === "AsyncFunction"] *)
Definition is_async_function (v : value) : bool :=
  match v with
  | VFun _ _ a _ => a
  | VWrapped _ _ _ => true
  | _ => false
  end.

(** [v.__async], as a truth value.  Only functions carry the marker in
    this model; reading it off any other non-nullish value gives
    [undefined]. *)
Definition async_marker (v : value) : bool :=
  match v with
  | VFun _ _ _ m => m
  | VWrapped _ _ m => m
  | _ => false
  end.

(** [v.__async = true] on a function object. *)
Definition set_async_marker (v : value) : value :=
  match v with
  | VFun i s a _ => VFun i s a true
  | VWrapped o n _ => VWrapped o n true
  | _ => v
  end.

(** ** Objects *)

Fixpoint own_get (o : obj) (k : string) : option value :=
  match o with
  | [] => None
  | (k', v) :: o' => if String.eqb k' k then Some v else own_get o' k
  end.

(** [o[k] = v]: an own key keeps its place, a new key goes last. *)
Fixpoint own_set (o : obj) (k : string) (v : value) : obj :=
  match o with
  | [] => [(k, v)]
  | (k', v') :: o' =>
      if String.eqb k' k then (k', v) :: o' else (k', v') :: own_set o' k v
  end.

(** [Object.getOwnPropertyNames(o)] *)
Definition own_keys (o : obj) : list string := map fst o.

(** [k in o], for an object with own properties [o] whose prototype
    chain contributes [chain]. *)
Definition has_key (o chain : obj) (k : string) : bool :=
  match own_get o k with
  | Some _ => true
  | None => match own_get chain k with Some _ => true | None => false end
  end.

(** [o[k]] as an expression: own property, else inherited, else
    [undefined]. *)
Definition get (o chain : obj) (k : string) : value :=
  match own_get o k with
  | Some v => v
  | None => match own_get chain k with Some v => v | None => VUndef end
  end.

(** The keys a [for (var key in v)] loop visits, with the values [v[key]]:
    the entries of a plain object, the indices of an array. *)
Definition enumerate (v : value) : obj :=
  match v with
  | VObj fields => fields
  | VArr items => imap (fun i x => (pretty (N.of_nat i), x)) items
  | _ => []
  end.

(** ToPropertyKey, exact on primitives and on arrays of them; the text
    of a function, class or pattern used as a key is not modelled. *)
Fixpoint to_key (v : value) : string :=
  match v with
  | VUndef => "undefined"
  | VNull => "null"
  | VBool true => "true"
  | VBool false => "false"
  | VNum n => pretty n
  | VStr s => s
  | VArr items =>
      String.concat ","
        (map (fun x => match x with
                       | VUndef | VNull => ""
                       | _ => to_key x
                       end) items)
  | VFun _ src _ _ => src
  | VClass src _ _ _ _ => src
  | _ => "[object Object]"
  end.

(** [f.toString()], for the values [typeof] calls functions; the two
    closures of [class.js] by the head of their text, which is as far
    as a pattern anchored at the start reads before it fails. *)
Definition source (v : value) : string :=
  match v with
  | VFun _ src _ _ => src
  | VClass src _ _ _ _ => src
  | VWrapped _ _ _ => "async function(...args) {"
  | VCompletion _ => "function(...results) {"
  | VNext _ => "function(err) {"
  | _ => ""
  end.

(** ** Regular expressions *)

(** A small backtracking matcher in continuation style: [re_match r s k]
    holds when [r] matches a prefix of [s] and [k] accepts the rest. *)
Inductive regex : Type :=
| RLit (s : list ascii)
| RStar (cls : ascii -> bool)
| RPlus (cls : ascii -> bool)
| RAlt (r1 r2 : regex)
| RSeq (r1 r2 : regex).

Fixpoint lit_match (l s : list ascii) (k : list ascii -> bool) : bool :=
  match l with
  | [] => k s
  | c :: l' =>
      match s with
      | d :: s' => if Ascii.eqb c d then lit_match l' s' k else false
      | [] => false
      end
  end.

Fixpoint star_match (cls : ascii -> bool) (s : list ascii)
    (k : list ascii -> bool) : bool :=
  match s with
  | c :: s' => (cls c && star_match cls s' k) || k s
  | [] => k s
  end.

Fixpoint re_match (r : regex) (s : list ascii) (k : list ascii -> bool) : bool :=
  match r with
  | RLit l => lit_match l s k
  | RStar cls => star_match cls s k
  | RPlus cls =>
      match s with
      | c :: s' => cls c && star_match cls s' k
      | [] => false
      end
  | RAlt r1 r2 => re_match r1 s k || re_match r2 s k
  | RSeq r1 r2 => re_match r1 s (fun rest => re_match r2 rest k)
  end.

(** [\s] on the characters 0..127: tab, line feed, vertical tab, form
    feed, carriage return, space. *)
Definition is_space (c : ascii) : bool :=
  let n := nat_of_ascii c in
  ((9 <=? n)%nat && (n <=? 13)%nat) || (n =? 32)%nat.

Definition not_space (c : ascii) : bool := negb (is_space c).

Definition not_rparen (c : ascii) : bool := negb (Ascii.eqb c ")"%char).

Definition chars (s : string) : list ascii := list_ascii_of_string s.

(** [/^\s*\S+\s*\([^\)]*(callback|cb)\s*\)\s*\{/] *)
Definition callback_signature : regex :=
  RSeq (RStar is_space)
  (RSeq (RPlus not_space)
  (RSeq (RStar is_space)
  (RSeq (RLit (chars "("))
  (RSeq (RStar not_rparen)
  (RSeq (RAlt (RLit (chars "callback")) (RLit (chars "cb")))
  (RSeq (RStar is_space)
  (RSeq (RLit (chars ")"))
  (RSeq (RStar is_space)
        (RLit (chars "{")))))))))).

(** [src.match(/^\s*\S+\s*\([^\)]*(callback|cb)\s*\)\s*\{/)], as a truth
    value: the pattern is anchored at the start only. *)
Definition sniff_callback (src : string) : bool :=
  re_match callback_signature (chars src) (fun _ => true).

(** [key.match(/^(__name|constructor|prototype)$/)] *)
Definition proto_reserved (key : string) : bool :=
  String.eqb key "__name" || String.eqb key "constructor"
  || String.eqb key "prototype".

(** [key.match(/^(name|length|prototype)$/)] *)
Definition static_reserved (key : string) : bool :=
  String.eqb key "name" || String.eqb key "length"
  || String.eqb key "prototype".

(** [key.match(/^__(static|asyncify|events|hooks)/)]: no [$] closes the
    pattern, so it tests a prefix. *)
Definition meta_key (key : string) : bool :=
  String.prefix "__static" key || String.prefix "__asyncify" key
  || String.prefix "__events" key || String.prefix "__hooks" key.

(** ** asyncify *)

(** What calling a function does, as far as its caller can tell: the
    argument lists it passes to its trailing callback during the call
    and after it has returned, and whether it returns or throws. *)
Inductive completion : Type :=
| Return (v : value)
| Throw (e : value).

Record outcome : Type := Outcome {
  sync_calls : list (list value);
  later_calls : list (list value);
  finish : completion
}.

(** The error raised by calling something that is not callable. *)
Definition type_error : value := VObj [("name", VStr "TypeError")].

(** A promise settles once: later requests are ignored. *)
Definition settle (st req : settled value) : settled value :=
  match st with
  | Pending => req
  | _ => st
  end.

(** [argNames.forEach(function(name, idx) { resultsObj[name] = results[idx]; })] *)
Fixpoint pack_from (names : list string) (idx : nat) (results : list value)
    (resultsObj : obj) : obj :=
  match names with
  | [] => resultsObj
  | name :: names' =>
      pack_from names' (S idx) results
        (own_set resultsObj name (nth idx results VUndef))
  end.

Definition pack (names : list string) (results : list value) : obj :=
  pack_from names 0 results [].

(** The body of the synthesized callback [function(...results)]: what
    it asks of the promise it closes over.  [None] is the callback
    raising instead ([argNames.forEach] on a truthy value that is not an
    array). *)
Definition complete (argNames : value) (cb_args : list value)
    : option (settled value) :=
  let err := hd VUndef cb_args in
  let results := tl cb_args in
  if truthy err then Some (Rejected err)
  else if truthy argNames then
    match argNames with
    | VArr names => Some (Resolved (VObj (pack (map to_key names) results)))
    | _ => None
    end
  else Some (Resolved (if (1 <? length results)%nat then VArr results
                       else nth 0 results VUndef)).

(** The promise an [async function] returns for what its body did: a
    returned promise is adopted, any other value fulfils it, an
    exception rejects it. *)
Definition async_result (c : completion) : value :=
  match c with
  | Return (VPromise st) => VPromise st
  | Return v => VPromise (Resolved v)
  | Throw e => VPromise (Rejected e)
  end.

(** The promise [new Promise((resolve, reject) => { origFunc.call(self,
    ...args, cb) })] ends up as: the callback invocations in the order
    they happen, an exception out of [origFunc] rejecting in between. *)
Definition executor_result (argNames : value) (o : outcome)
    : settled value :=
  let run := fold_left (fun st a =>
                 match complete argNames a with
                 | Some req => settle st req
                 | None => st
                 end) in
  let st := run (sync_calls o) Pending in
  let st := match finish o with
            | Throw e => settle st (Rejected e)
            | Return _ => st
            end in
  run (later_calls o) st.

Section Invoke.

(** How the functions the user wrote behave when called. *)
Variable behave : nat -> list value -> outcome.

(** [f.call(self, ...args)] *)
Fixpoint invoke (f : value) (args : list value) : outcome :=
  match f with
  | VFun id _ is_async _ =>
      let o := behave id args in
      if is_async
      then Outcome (sync_calls o) (later_calls o) (Return (async_result (finish o)))
      else o
  | VWrapped origFunc argNames _ =>
      if is_function (default VUndef (last args))
      then
        let o := invoke origFunc args in
        Outcome (sync_calls o) (later_calls o) (Return (async_result (finish o)))
      else
        let o := invoke origFunc (args ++ [VCompletion argNames]) in
        Outcome [] [] (Return (VPromise (executor_result argNames o)))
  | _ => Outcome [] [] (Throw type_error)
  end.

End Invoke.

(** [asyncify(origFunc, argNames)] *)
Definition asyncify (origFunc : value) (argNames : value) : value :=
  VWrapped origFunc argNames false.

(** ** The class builder *)

(** Synchronous code that may throw. *)
Inductive result (A : Type) : Type :=
| Ok (a : A)
| Err (e : value).
Arguments Ok {A} a.
Arguments Err {A} e.

Definition bind {A B : Type} (r : result A) (f : A -> result B) : result B :=
  match r with
  | Ok a => f a
  | Err e => Err e
  end.

Notation "'try' x ':=' r 'in' k" := (bind r (fun x => k))
  (at level 10, x name, r at level 100, k at level 200).

(** A construct: the class being augmented, taken apart. *)
Record construct : Type := Construct {
  c_src : string;
  c_static : obj;
  c_static_chain : obj;
  c_proto : obj;
  c_proto_chain : obj
}.

Definition with_proto (c : construct) (p : obj) : construct :=
  Construct (c_src c) (c_static c) (c_static_chain c) p (c_proto_chain c).

Definition with_static (c : construct) (s : obj) : construct :=
  Construct (c_src c) s (c_static_chain c) (c_proto c) (c_proto_chain c).

(** [if (args.__static) for (var key in args.__static) obj[key] = ...]
    (what assigning to the constructor's read-only [name], [length] or
    [prototype] does is left out). *)
Definition populate_static (args : obj) (c : construct) : construct :=
  let st := get args [] "__static" in
  if truthy st
  then with_static c
         (fold_left (fun s kv => own_set s (fst kv) (snd kv)) (enumerate st)
            (c_static c))
  else c.

(** [!v.__async && (v.constructor.name !== "AsyncFunction")] *)
Definition convertible (v : value) : bool :=
  negb (async_marker v) && negb (is_async_function v).

(** [proto[key] = asyncify(v, argNames); proto[key].__async = true;] *)
Definition convert (proto : obj) (key : string) (v argNames : value) : obj :=
  own_set proto key (set_async_marker (asyncify v argNames)).

(** One round of the loops over named methods (the list and the
    mapping form of the directive). *)
Definition asyncify_named (chain : obj) (proto : obj) (key : string)
    (argNames : value) : obj :=
  let v := get proto chain key in
  if truthy v && convertible v then convert proto key v argNames else proto.

(** One round of the loops over [Object.getOwnPropertyNames(proto)]
    (the pattern and the flag form of the directive); [select key v]
    is the test that differs between the two. *)
Definition asyncify_own (select : string -> value -> bool) (chain : obj)
    (proto : obj) (key : string) : obj :=
  let v := get proto chain key in
  if negb (proto_reserved key) && is_function v && select key v
     && convertible v
  then convert proto key v VUndef else proto.

(** [if (args.__asyncify) { ... }] on the instance template. *)
Definition asyncify_pass (directive : value) (chain : obj) (proto : obj) : obj :=
  if truthy directive then
    if is_object directive then
      match directive with
      | VArr keys =>
          fold_left (fun p k => asyncify_named chain p (to_key k) VUndef) keys proto
      | VRegExp test =>
          fold_left (asyncify_own (fun key _ => test key) chain)
            (own_keys proto) proto
      | _ =>
          fold_left (fun p kv => asyncify_named chain p (fst kv) (snd kv))
            (enumerate directive) proto
      end
    else
      fold_left (asyncify_own (fun _ v => sniff_callback (source v)) chain)
        (own_keys proto) proto
  else proto.

(** The message thrown for a mixin without a prototype. *)
Definition not_a_class : value :=
  VStr "All items specified in __mixins must be classes.".

(** [var mixins = args.__mixins || []; if (args.__events)
    mixins.unshift(EventEmitter); if (args.__hooks)
    mixins.unshift(HookHelper);] The list is the array the loop walks;
    when [args.__mixins] is an array it is that very array, changed in
    place.  Of the other truthy values only strings are given their
    elements. *)
Definition assemble_mixins (EventEmitter HookHelper : value) (args : obj)
    : result (list value * obj) :=
  let given := get args [] "__mixins" in
  let ev := truthy (get args [] "__events") in
  let hk := truthy (get args [] "__hooks") in
  let front := ((if hk then [HookHelper] else []) ++
                (if ev then [EventEmitter] else []))%list in
  if truthy given then
    match given with
    | VArr items =>
        let items' := (front ++ items)%list in
        Ok (items', if ev || hk then own_set args "__mixins" (VArr items') else args)
    | _ =>
        if ev || hk then Err type_error
        else match given with
             | VStr s => Ok (map (fun ch => VStr (String ch "")) (chars s), args)
             | _ => Ok ([], args)
             end
    end
  else Ok (front, args).

(** Each of the two [forEach] loops that copy one mixin's members. *)
Definition merge_members (reserved : string -> bool) (chain : obj)
    (target : obj) (source_members : obj) : obj :=
  fold_left (fun t kv =>
               if negb (reserved (fst kv)) && negb (has_key t chain (fst kv))
               then own_set t (fst kv) (snd kv) else t)
    source_members target.

(** One round of the loop over the mixins.  A class contributes the
    own properties of its prototype and its own static properties; so
    does an object literal that carries a [prototype] object.  Reading
    [prototype] off [undefined] or [null] raises a type error, and any
    other entry has no prototype to read. *)
Definition merge_from (c : construct) (class_proto statics : obj) : construct :=
  let p := merge_members proto_reserved (c_proto_chain c) (c_proto c) class_proto in
  let s := merge_members static_reserved (c_static_chain c) (c_static c) statics in
  Construct (c_src c) s (c_static_chain c) p (c_proto_chain c).

Definition merge_mixin (c : construct) (class_obj : value) : result construct :=
  match class_obj with
  | VClass _ statics _ class_proto _ => Ok (merge_from c class_proto statics)
  | VObj fields =>
      match get fields [] "prototype" with
      | VObj class_proto => Ok (merge_from c class_proto fields)
      | _ => Err not_a_class
      end
  | VUndef | VNull => Err type_error
  | _ => Err not_a_class
  end.

(** [for (var idx = 0, len = mixins.length; idx < len; idx++) { ... }] *)
Fixpoint merge_mixins (c : construct) (mixins : list value) : result construct :=
  match mixins with
  | [] => Ok c
  | class_obj :: rest =>
      try c' := merge_mixin c class_obj in
      merge_mixins c' rest
  end.

(** [if (args.__hooks && !proto.fireHook.__async) { ... }] *)
Definition finalize_hooks (args : obj) (c : construct) : result construct :=
  if truthy (get args [] "__hooks") then
    match get (c_proto c) (c_proto_chain c) "fireHook" with
    | VUndef | VNull => Err type_error
    | fh =>
        if async_marker fh then Ok c
        else Ok (with_proto c (convert (c_proto c) "fireHook" fh VUndef))
    end
  else Ok c.

(** [for (var key in args) if (!key.match(/^__(static|.../)) proto[key] = args[key];] *)
Definition instance_defaults (args : obj) (proto : obj) : obj :=
  fold_left (fun p kv =>
               if negb (meta_key (fst kv)) then own_set p (fst kv) (snd kv) else p)
    args proto.

(** The methods of [class HookHelper], by the head of their source. *)
Definition registerHook_fn : value := VFun 0 "registerHook(name, handler) {" false false.
Definition removeHook_fn : value := VFun 1 "removeHook(name, handler) {" false false.
Definition fireHook_fn : value := VFun 2 "fireHook(name, thingy, callback) {" false false.

Definition HookHelper : value :=
  VClass "class HookHelper {" [] []
    [("registerHook", registerHook_fn); ("removeHook", removeHook_fn);
     ("fireHook", fireHook_fn)] [].

Section Class.

(** [events.EventEmitter], which the builder takes from Node. *)
Variable EventEmitter : value.

(** [module.exports = function Class(args, obj)]: the augmented
    construct, together with [args] as the call leaves it. *)
Definition Class (args : obj) (c : construct) : result (obj * construct) :=
  let c := populate_static args c in
  let c := with_proto c
             (asyncify_pass (get args [] "__asyncify") (c_proto_chain c) (c_proto c)) in
  try ma := assemble_mixins EventEmitter HookHelper args in
  let mixins := fst ma in
  let args := snd ma in
  try c := merge_mixins c mixins in
  try c := finalize_hooks args c in
  Ok (args, with_proto c (instance_defaults args (c_proto c))).

End Class.

(** ** The hook dispatcher *)

(** [this.hooks]: absent until first used, then a table from hook names
    to listeners in registration order. *)
Abbreviation registry := (option (gmap string (list value))).

(** [this.hooks[name]] once [this.hooks] has been created. *)
Definition listeners (hooks : registry) (name : string) : option (list value) :=
  match hooks with
  | Some table => table !! name
  | None => None
  end.

(** [registerHook(name, handler)] *)
Definition registerHook (hooks : registry) (name : string) (handler : value)
    : registry :=
  let table := default ∅ hooks in
  Some (<[name := (default [] (table !! name) ++ [handler])%list]> table).

Section RemoveHook.

(** [x === handler], the engine's strict equality: two functions are
    equal when they are the same function object. *)
Variable same : value -> value -> bool.

(** [arr.indexOf(handler)] *)
Fixpoint index_of (arr : list value) (handler : value) : option nat :=
  match arr with
  | [] => None
  | x :: arr' =>
      if same x handler then Some 0%nat
      else match index_of arr' handler with
           | Some i => Some (S i)
           | None => None
           end
  end.

(** [removeHook(name, handler)] *)
Definition removeHook (hooks : registry) (name : string) (handler : value)
    : registry :=
  let table := default ∅ hooks in
  if truthy handler then
    match table !! name with
    | Some arr =>
        let arr' := match index_of arr handler with
                    | Some i => delete i arr
                    | None => arr
                    end in
        match arr' with
        | [] => Some (delete name table)
        | _ => Some (<[name := arr']> table)
        end
    | None => Some table
    end
  else Some (delete name table).

End RemoveHook.

(** What an observer of one fire sees, in order. *)
Inductive event : Type :=
| EvBegin (i : nat)
| EvEnd (i : nat) (how : settled value)
| EvCallback (cb_args : list value)
| EvThrow (e : value)
| EvReturn
| EvTick.

(** What waits for a later turn of the event loop.  One queue stands
    for the loop: [process.nextTick] callbacks, promise reactions and
    the later calls a listener makes each run in a turn of their own,
    in the order they were queued. *)
Inductive task : Type :=
| TIterator
| TCallback
| TNext (i : nat) (nextThread : bool) (cb_args : list value)
| TSettled (i : nat) (st : settled value).

Record fire_state : Type := FireState {
  idx : nat;
  queue : list task;
  trace : list event
}.

Definition emit (ev : event) (st : fire_state) : fire_state :=
  FireState (idx st) (queue st) (trace st ++ [ev]).

Definition enqueue (t : task) (st : fire_state) : fire_state :=
  FireState (idx st) (queue st ++ [t]) (trace st).

Section FireHook.

Variable behave : nat -> list value -> outcome.

(** The instance's registry, the fired name and the payload.  Listeners
    are taken not to register or remove hooks while the fire runs, so
    [self.hooks[name]] reads the same sequence at every step. *)
Variable hooks : registry.
Variable name : string.
Variable thingy : value.

Definition handlers : list value := default [] (listeners hooks name).

(** How a callback-style listener's [function(err) {...}] reads [err]. *)
Definition verdict (cb_args : list value) : settled value :=
  let err := hd VUndef cb_args in
  if truthy err then Rejected err else Resolved VUndef.

(** The promise an async listener returned, when [handler.call] came
    back with one. *)
Definition returned_promise (c : completion) : option (settled value) :=
  match c with
  | Return (VPromise p) => Some p
  | _ => None
  end.

(** The listener's completion callback [function(err) {...}]:
    [nextThread] is still 0 while the listener's own call is running,
    and [iterator] is what a later invocation calls directly. *)
Definition next_call (iterator : fire_state -> fire_state) (i : nat)
    (nextThread : bool) (cb_args : list value) (st : fire_state) : fire_state :=
  let st := emit (EvEnd i (verdict cb_args)) st in
  let err := hd VUndef cb_args in
  if truthy err then emit (EvCallback [err]) st
  else if nextThread then iterator st
  else enqueue TIterator st.

Definition start_listener (i : nat) (handler : value) (st : fire_state)
    : fire_state :=
  let st := emit (EvBegin i) st in
  if is_async_function handler then
    let o := invoke behave handler [thingy] in
    match returned_promise (finish o) with
    | Some Pending => st
    | Some p => enqueue (TSettled i p) st
    | None => emit (EvThrow type_error) st
    end
  else
    let o := invoke behave handler [thingy; VNext i] in
    let st := fold_left (fun s a => next_call (fun s' => s') i false a s)
                (sync_calls o) st in
    let thrown := match finish o with Throw _ => true | Return _ => false end in
    let st := fold_left (fun s a => enqueue (TNext i (negb thrown) a) s)
                (later_calls o) st in
    match finish o with
    | Throw e => emit (EvThrow e) st
    | Return _ => st
    end.

Definition iterator (st : fire_state) : fire_state :=
  let i := idx st in
  let st := FireState (S i) (queue st) (trace st) in
  match handlers !! i with
  | Some handler =>
      if truthy handler then start_listener i handler st
      else emit (EvCallback []) st
  | None => emit (EvCallback []) st
  end.

(** One turn of the event loop. *)
Definition run_task (t : task) (st : fire_state) : fire_state :=
  let st := emit EvTick st in
  match t with
  | TIterator => iterator st
  | TCallback => emit (EvCallback []) st
  | TNext i nextThread cb_args => next_call iterator i nextThread cb_args st
  | TSettled i p =>
      let st := emit (EvEnd i p) st in
      match p with
      | Rejected e => emit (EvCallback [e]) st
      | _ => iterator st
      end
  end.

Fixpoint run (fuel : nat) (st : fire_state) : fire_state :=
  match fuel with
  | O => st
  | S fuel' =>
      match queue st with
      | [] => st
      | t :: rest => run fuel' (run_task t (FireState (idx st) rest (trace st)))
      end
  end.

(** [fireHook(name, thingy, callback)], up to its return. *)
Definition fireHook_call : fire_state :=
  let st := FireState 0 [] [] in
  let st := match listeners hooks name with
            | None | Some [] => enqueue TCallback st
            | Some _ => iterator st
            end in
  emit EvReturn st.

(** The whole fire, given the turns the event loop may take. *)
Definition fireHook (fuel : nat) : fire_state := run fuel fireHook_call.

End FireHook.

(** * Vocabulary of the properties *)

(** ** Deferred results *)

(** A converted method: as [asyncify] returns it, or as the class
    builder installs it, with the marker set. *)
Definition converted (origFunc argNames : value) (marked : bool) : value :=
  if marked then set_async_marker (asyncify origFunc argNames)
  else asyncify origFunc argNames.

(** The first time the synthesized callback is invoked: during the
    call, or later if the original returned without invoking it. *)
Definition first_call (o : outcome) : option (list value) :=
  match sync_calls o with
  | c :: _ => Some c
  | [] => match finish o with
          | Return _ => head (later_calls o)
          | Throw _ => None
          end
  end.


(** ** Conversion loops *)

(** The common shape of the four conversion loops: a round looks at
    [proto[key]] and replaces it by its marked conversion when a test
    passes. *)
Definition round {K : Type} (key_of : K -> string) (names_of : K -> value)
    (test : string -> value -> bool) (chain : obj) (proto : obj) (k : K) : obj :=
  let v := get proto chain (key_of k) in
  if test (key_of k) v then convert proto (key_of k) v (names_of k) else proto.

(** The tests of the loops over named methods and over own properties. *)
Definition named_test (k : string) (v : value) : bool :=
  truthy v && convertible v.

Definition own_test (select : string -> value -> bool) (k : string) (v : value)
    : bool :=
  negb (proto_reserved k) && is_function v && select k v && convertible v.

(** ** The callback-signature pattern *)








(** ** Traces of a fire *)

(** Where a fire stands, as an observer of its events can tell. *)
Inductive phase : Type :=
| Idle (next : nat)
| Running (i : nat)
| Done.

(** Events that are neither a listener's nor the fire's completion. *)
Definition passive (ev : event) : bool :=
  match ev with
  | EvThrow _ | EvReturn | EvTick => true
  | _ => false
  end.

(** The orderly traces: listener [n] begins only when listeners
    [0 .. n-1] have begun and ended and none is running; a running
    listener either ends well, and the next may begin, or signals
    failure [e], and then the fire's callback receives [e] at once and
    nothing begins or ends any more; the fire's callback is invoked
    with no argument only between listeners. *)
Inductive observed : list event -> phase -> Prop :=
| obs_start : observed [] (Idle 0)
| obs_begin tr n :
    observed tr (Idle n) -> observed (tr ++ [EvBegin n]) (Running n)
| obs_end tr i v :
    observed tr (Running i) -> observed (tr ++ [EvEnd i (Resolved v)]) (Idle (S i))
| obs_fail tr i e :
    observed tr (Running i) ->
    observed (tr ++ [EvEnd i (Rejected e); EvCallback [e]]) Done
| obs_done tr n :
    observed tr (Idle n) -> observed (tr ++ [EvCallback []]) Done
| obs_passive tr ph ev :
    observed tr ph -> passive ev = true -> observed (tr ++ [ev]) ph.

(** The listeners a trace shows beginning, and ending, in order. *)
Definition begins (tr : list event) : list nat :=
  omap (fun ev => match ev with EvBegin i => Some i | _ => None end) tr.

Definition ends (tr : list event) : list nat :=
  omap (fun ev => match ev with EvEnd i _ => Some i | _ => None end) tr.

(** The invocations of the fire's callback a trace shows. *)
Definition callbacks (tr : list event) : list (list value) :=
  omap (fun ev => match ev with EvCallback a => Some a | _ => None end) tr.


(** A callback-style listener keeps to the convention when it invokes
    its completion callback at most once. *)
Definition calls_once (o : outcome) : Prop :=
  (length (sync_calls o) + length (later_calls o) <= 1)%nat.

Definition conventional (behave : nat -> list value -> outcome)
    (hooks : registry) (name : string) (thingy : value) : Prop :=
  forall (i : nat) (h : value),
    handlers hooks name !! i = Some h ->
    is_async_function h = false ->
    calls_once (invoke behave h [thingy; VNext i]).

(** What may wait in the queue in each phase. *)
Definition queue_ok (ph : phase) (idx : nat) (q : list task) : Prop :=
  match q with
  | [] => True
  | [TIterator] => ph = Idle idx
  | [TCallback] => exists n, ph = Idle n
  | [TNext i _ _] => ph = Running i /\ idx = S i
  | [TSettled i p] => ph = Running i /\ idx = S i /\ p <> Pending
  | _ => False
  end.

Definition orderly (st : fire_state) : Prop :=
  exists ph, observed (trace st) ph /\ queue_ok ph (idx st) (queue st).

(** What each phase says about the listeners begun and ended so far. *)
Definition phase_counts (tr : list event) (ph : phase) : Prop :=
  match ph with
  | Idle n => begins tr = seq 0 n /\ ends tr = seq 0 n /\ callbacks tr = []
  | Running i => begins tr = seq 0 (S i) /\ ends tr = seq 0 i /\ callbacks tr = []
  | Done => exists n, begins tr = seq 0 n /\ ends tr = seq 0 n
  end.

(** Events that are neither a failure nor an invocation of the fire's
    callback. *)
Definition clean (ev : event) : bool :=
  match ev with
  | EvEnd _ (Rejected _) | EvCallback _ => false
  | _ => true
  end.

(** How an orderly trace can have ended. *)
Definition ended_well (tr : list event) : Prop :=
  exists pre post,
    tr = (pre ++ EvCallback [] :: post)%list /\
    forallb clean pre = true /\ forallb passive post = true.

Definition ended_in_failure (tr : list event) (i : nat) (e : value) : Prop :=
  exists pre post,
    tr = (pre ++ EvEnd i (Rejected e) :: EvCallback [e] :: post)%list /\
    forallb clean pre = true /\ forallb passive post = true.

(** A listener that completes without failure: an async one whose
    promise resolves, or a callback-style one that returns and invokes
    its completion callback once, during the call or later, with a
    falsy first argument. *)
Definition succeeds (behave : nat -> list value -> outcome) (thingy : value)
    (i : nat) (h : value) : Prop :=
  truthy h = true /\
  if is_async_function h
  then exists v,
      returned_promise (finish (invoke behave h [thingy])) = Some (Resolved v)
  else
    let o := invoke behave h [thingy; VNext i] in
    exists a r,
      truthy (hd VUndef a) = false /\ finish o = Return r /\
      ((sync_calls o = [a] /\ later_calls o = []) \/
       (sync_calls o = [] /\ later_calls o = [a])).

Definition all_succeed (behave : nat -> list value -> outcome)
    (hooks : registry) (name : string) (thingy : value) : Prop :=
  forall (i : nat) (h : value),
    handlers hooks name !! i = Some h -> succeeds behave thingy i h.


(** ** Examples *)

(** A method [pour(callback)] that calls back with [(null, 8, "oz")]
    and returns 42. *)
Definition pour_fn : value := VFun 7 "pour(callback) {" false false.

Definition pour_behave (id : nat) (args : list value) : outcome :=
  Outcome [[VNull; VNum 8; VStr "oz"]] [] (Return (VNum 42)).

Definition amount_units : value := VArr [VStr "amount"; VStr "units"].

(** A caller's own callback. *)
Definition user_callback : value := VFun 8 "function(err, amount, units) {" false false.

(** Two mixins for a target with an empty template. *)
Definition mixin_A : value :=
  VClass "class A {" [] [] [("__name", VStr "A"); ("size", VNum 8)] [].
Definition mixin_B : value :=
  VClass "class B {" [] [] [("__name", VStr "B"); ("size", VNum 12)] [].
Definition bare_target : construct := Construct "class T {" [] [] [] [].

(** Two mixins that define [describe], and a target that declares
    nothing itself but extends a class that has a [describe]. *)
Definition describe_A : value := VFun 60 "describe() {" false false.
Definition describe_B : value := VFun 61 "describe() {" false false.
Definition describe_base : value := VFun 62 "describe() {" false false.
Definition mixin_DA : value := VClass "class A {" [] [] [("describe", describe_A)] [].
Definition mixin_DB : value := VClass "class B {" [] [] [("describe", describe_B)] [].
Definition derived_target : construct :=
  Construct "class T extends Base {" [] [] [] [("describe", describe_base)].

(** A caller's configuration that enables hooks and lists one mixin. *)
Definition hooks_config : obj :=
  [("__hooks", VBool true); ("__mixins", VArr [mixin_A])].


Definition slow_fn : value := VFun 51 "function(thingy, callback) {" false false.
Definition quick_fn : value := VFun 52 "function(thingy, callback) {" false false.
Definition rejecting_fn : value := VFun 53 "async function(thingy) {" true false.
Definition failing_fn : value := VFun 54 "function(thingy, callback) {" false false.
Definition late_fail_fn : value := VFun 55 "function(thingy, callback) {" false false.

Definition listener_behave (id : nat) (args : list value) : outcome :=
  match id with
  | 50 => Outcome [[]; []] [] (Return VUndef)
  | 51 => Outcome [] [[]] (Return VUndef)
  | 52 => Outcome [[]] [] (Return VUndef)
  | 53 => Outcome [] [] (Throw VNull)
  | 54 => Outcome [[VStr "boom"]] [] (Return VUndef)
  | 55 => Outcome [[]; [VStr "boom"]] [] (Return VUndef)
  | _ => Outcome [] [] (Return VUndef)
  end.

(** The registry after [registerHook("x", h)] for each [h] in turn. *)
Definition registered (hs : list value) : registry :=
  fold_left (fun r h => registerHook r "x" h) hs None.

(** The classes of the unit tests: [Foo] with [foo()] and a
    callback-style [pour(callback)], and the behaviours [pour] has in
    the tests. *)
Definition foo_fn : value := VFun 70 "foo() {" false false.
Definition test_pour_fn : value := VFun 71 "pour(callback) {" false false.

Definition test_Foo : construct :=
  Construct "class Foo {" [] [] [("foo", foo_fn); ("pour", test_pour_fn)] [].

Definition pour_with (cb_args : list value) (id : nat) (args : list value)
    : outcome :=
  match id with
  | 71 => Outcome [cb_args] [] (Return VUndef)
  | _ => Outcome [] [] (Return (VStr "bar"))
  end.

(** What [await instance.pour()] yields after [Class(args, class Foo)],
    when [pour] calls back with [cb_args]. *)
Definition test_await_pour (args : obj) (cb_args : list value)
    : option completion :=
  match Class VUndef args test_Foo with
  | Ok (_, c) =>
      Some (finish (invoke (pour_with cb_args)
                      (get (c_proto c) (c_proto_chain c) "pour") []))
  | Err _ => None
  end.

(** ** The hook registry *)



(** Strict equality on the functions of the examples: by identity. *)
Definition same_fn (x y : value) : bool :=
  match x, y with
  | VFun i _ _ _, VFun j _ _ _ => Nat.eqb i j
  | _, _ => false
  end.

(** ** Turns of the event loop *)







(** ** Selections of the asyncify pass *)

(** A class [Sleeper] that extends a base with a callback-style
    [sleep], and declares [nap] itself. *)
Definition sleep_fn : value := VFun 80 "sleep(ms, callback) {" false false.
Definition nap_fn : value := VFun 81 "nap(cb) {" false false.
Definition wake_fn : value := VFun 82 "wake() {" false false.
Definition sleeper_proto : obj := [("nap", nap_fn); ("wake", wake_fn)].
Definition sleeper_chain : obj := [("sleep", sleep_fn)].

(** ** Mixin lists *)

(** What a mixin entry contributes: the own properties of its
    prototype, and its own static properties. *)
Definition template_of (m : value) : obj :=
  match m with
  | VClass _ _ _ class_proto _ => class_proto
  | VObj fields =>
      match get fields [] "prototype" with
      | VObj class_proto => class_proto
      | _ => []
      end
  | _ => []
  end.

Definition statics_of (m : value) : obj :=
  match m with
  | VClass _ statics _ _ _ => statics
  | VObj fields => fields
  | _ => []
  end.



(** The value of [k] in the first of several objects that has it. *)
Fixpoint first_provider (k : string) (srcs : list obj) : option value :=
  match srcs with
  | [] => None
  | src :: rest =>
      match own_get src k with
      | Some v => Some v
      | None => first_provider k rest
      end
  end.

(** Three mixins, of which the second and the third define [size]. *)
Definition mixin_C : value :=
  VClass "class C {" [("kind", VStr "c")] [] [("flavor", VStr "sweet")] [].

(** ** Configurations *)

(** A class with a method and a static member, and a configuration
    whose keys collide with both. *)
Definition clash_target : construct :=
  Construct "class Beer {" [("types", VArr [VStr "Ale"])] []
    [("name_of", foo_fn)] [].

Definition clash_config : obj :=
  [("__static", VObj [("types", VArr [VStr "Lager"; VStr "Stout"])]);
   ("__mixins", VArr [mixin_C]);
   ("name_of", VStr "anonymous")].

(** A mixin with a callback-style method, and a configuration that
    asks for automatic conversion and mixes it in. *)
Definition mixin_sleeper : value :=
  VClass "class Sleeper {" [] [] [("sleep", sleep_fn)] [].

Definition auto_config : obj :=
  [("__asyncify", VBool true); ("__hooks", VBool true);
   ("__mixins", VArr [mixin_sleeper])].

Definition napper_target : construct :=
  Construct "class Napper {" [] [] [("nap", nap_fn)] [].

(** ** Method signatures *)


(** ** Listeners that do not complete *)

(** A listener that returns without ever completing: a callback-style
    one that never invokes its callback, or an async one whose promise
    stays pending. *)
Definition silent (behave : nat -> list value -> outcome) (thingy : value)
    (h : value) : Prop :=
  if is_async_function h
  then returned_promise (finish (invoke behave h [thingy])) = Some Pending
  else
    let o := invoke behave h [thingy; VNext 0] in
    sync_calls o = [] /\ later_calls o = [] /\ exists v, finish o = Return v.

(** A callback-style listener that throws before it has called back. *)
Definition throws (behave : nat -> list value -> outcome) (thingy : value)
    (h e : value) : Prop :=
  is_async_function h = false /\
  let o := invoke behave h [thingy; VNext 0] in
  sync_calls o = [] /\ later_calls o = [] /\ finish o = Throw e.

(** Listeners for the examples: one that forgets to call back, one
    that throws. *)
Definition forgetful_fn : value := VFun 56 "function(thingy, callback) {" false false.
Definition throwing_fn : value := VFun 57 "function(thingy, callback) {" false false.

Definition faulty_behave (id : nat) (args : list value) : outcome :=
  match id with
  | 57 => Outcome [] [] (Throw (VStr "oops"))
  | _ => Outcome [] [] (Return VUndef)
  end.

(** * Properties *)

(** ** Objects *)

Lemma own_get_set_eq (o : obj) (k : string) (v : value) :
  own_get (own_set o k v) k = Some v.
Proof.
  induction o as [|[k' v'] o IH]; simpl.
  - by rewrite String.eqb_refl.
  - destruct (String.eqb k' k) eqn:E; simpl; rewrite E; auto.
Qed.

Lemma own_get_set_ne (o : obj) (k k' : string) (v : value) :
  k <> k' -> own_get (own_set o k v) k' = own_get o k'.
Proof.
  intros Hne. induction o as [|[k0 v0] o IH]; simpl.
  - destruct (String.eqb k k') eqn:E; [|done].
    apply String.eqb_eq in E. contradiction.
  - destruct (String.eqb k0 k) eqn:E; simpl.
    + apply String.eqb_eq in E. subst k0.
      destruct (String.eqb k k') eqn:E'; [|done].
      apply String.eqb_eq in E'. contradiction.
    + rewrite IH. done.
Qed.

Lemma own_get_set (o : obj) (k k' : string) (v : value) :
  own_get (own_set o k v) k' = if String.eqb k k' then Some v else own_get o k'.
Proof.
  destruct (String.eqb k k') eqn:E.
  - apply String.eqb_eq in E. subst. apply own_get_set_eq.
  - apply String.eqb_neq in E. by apply own_get_set_ne.
Qed.

Lemma has_key_set (o chain : obj) (k k' : string) (v : value) :
  has_key (own_set o k v) chain k' = String.eqb k k' || has_key o chain k'.
Proof.
  unfold has_key. rewrite own_get_set.
  destruct (String.eqb k k'); done.
Qed.

Lemma get_set (o chain : obj) (k k' : string) (v : value) :
  get (own_set o k v) chain k' = if String.eqb k k' then v else get o chain k'.
Proof.
  unfold get. rewrite own_get_set. destruct (String.eqb k k'); done.
Qed.

(** ** asyncify *)

Lemma settle_done (st req : settled value) :
  st <> Pending -> settle st req = st.
Proof. destruct st; simpl; congruence. Qed.

Lemma run_settled (argNames : value) (calls : list (list value))
    (st : settled value) :
  st <> Pending ->
  fold_left (fun st a => match complete argNames a with
                         | Some req => settle st req
                         | None => st
                         end) calls st = st.
Proof.
  revert st. induction calls as [|a calls IH]; intros st Hst; simpl; [done|].
  destruct (complete argNames a) as [req|].
  - rewrite settle_done by done. by apply IH.
  - by apply IH.
Qed.

Lemma executor_result_first (argNames : value) (o : outcome)
    (c : list value) (req : settled value) :
  first_call o = Some c ->
  complete argNames c = Some req ->
  req <> Pending ->
  executor_result argNames o = req.
Proof.
  intros Hfirst Hc Hreq. unfold executor_result, first_call in *.
  destruct (sync_calls o) as [|c0 sync] eqn:Hs.
  - destruct (finish o) eqn:Hf; [|done].
    destruct (later_calls o) as [|c1 later]; simplify_eq/=.
    rewrite Hc. simpl. by apply run_settled.
  - simplify_eq/=. rewrite Hc. simpl.
    rewrite (run_settled _ sync) by done.
    destruct (finish o); simpl; rewrite ?settle_done by done;
      by apply run_settled.
Qed.

Lemma pack_from_get_other (names : list string) (i : nat)
    (results : list value) (o : obj) (n : string) :
  n ∉ names -> own_get (pack_from names i results o) n = own_get o n.
Proof.
  revert i o. induction names as [|m names IH]; intros i o Hn; simpl; [done|].
  rewrite IH by set_solver. apply own_get_set_ne. set_solver.
Qed.

Lemma pack_from_get (names : list string) (i j : nat)
    (results : list value) (o : obj) (n : string) :
  names !! j = Some n ->
  n ∉ drop (S j) names ->
  own_get (pack_from names i results o) n = Some (nth (i + j) results VUndef).
Proof.
  revert i j o. induction names as [|m names IH]; intros i j o Hj Hlast; [done|].
  destruct j as [|j]; simpl in *.
  - simplify_eq. rewrite drop_0 in Hlast.
    rewrite pack_from_get_other by done.
    rewrite own_get_set_eq. by rewrite Nat.add_0_r.
  - rewrite (IH (S i) j) by done. f_equal. f_equal. lia.
Qed.

Lemma to_key_names (names : list string) : map to_key (map VStr names) = names.
Proof. induction names as [|n names IH]; simpl; [done|]. by rewrite IH. Qed.



(** C6, as stated, fails: called with a trailing callable, the
    converted [pour] hands the caller a promise of 42 where the
    original returned 42. *)
Lemma asyncify_classic_counterexample :
  is_function (default VUndef (last [user_callback])) = true /\
  finish (invoke pour_behave pour_fn [user_callback]) = Return (VNum 42) /\
  finish (invoke pour_behave (asyncify pour_fn VUndef) [user_callback])
  = Return (VPromise (Resolved (VNum 42))) /\
  invoke pour_behave (asyncify pour_fn VUndef) [user_callback]
  <> invoke pour_behave pour_fn [user_callback].
Proof. repeat split; try reflexivity. discriminate. Qed.

(** C6, amended.  Called with a trailing callable, a converted method
    calls the original with exactly the arguments it was given (no
    completion callback is synthesized), so the caller's callback
    receives what the original passes it; the converted method itself,
    being an [async function], returns a promise for what the original
    returned or threw. *)
Theorem asyncify_classic_passthrough (behave : nat -> list value -> outcome)
    (origFunc argNames : value) (marked : bool) (args : list value) :
  is_function (default VUndef (last args)) = true ->
  let o := invoke behave origFunc args in
  let o' := invoke behave (converted origFunc argNames marked) args in
  sync_calls o' = sync_calls o /\
  later_calls o' = later_calls o /\
  finish o' = Return (async_result (finish o)) /\
  (forall v : value, finish o = Return v ->
     (forall p, v <> VPromise p) -> finish o' = Return (VPromise (Resolved v))) /\
  (forall e : value, finish o = Throw e ->
     finish o' = Return (VPromise (Rejected e))).
Proof.
  intros Hlast. cbn zeta.
  assert (Hinv : invoke behave (converted origFunc argNames marked) args
                 = Outcome (sync_calls (invoke behave origFunc args))
                     (later_calls (invoke behave origFunc args))
                     (Return (async_result (finish (invoke behave origFunc args))))).
  { destruct marked; unfold converted, asyncify; cbn [set_async_marker invoke];
      by rewrite Hlast. }
  rewrite Hinv. cbn [sync_calls later_calls finish].
  repeat split.
  - intros v Hv Hp. rewrite Hv. destruct v; try done. by destruct (Hp st).
  - intros e He. by rewrite He.
Qed.

Lemma asyncify_classic_passthrough_witness :
  is_function (default VUndef (last [user_callback])) = true /\
  sync_calls (invoke pour_behave (converted pour_fn VUndef true) [user_callback])
  = [[VNull; VNum 8; VStr "oz"]] /\
  finish (invoke pour_behave (converted pour_fn VUndef true) [user_callback])
  = Return (VPromise (Resolved (VNum 42))).
Proof.
  split; [reflexivity|].
  destruct (asyncify_classic_passthrough pour_behave pour_fn VUndef true
              [user_callback] eq_refl) as (Hs & _ & Hf & _).
  split; [exact Hs | exact Hf].
Defined.

(** ** Mixins *)

Lemma merge_members_keeps (reserved : string -> bool) (chain target src : obj)
    (k : string) (v : value) :
  own_get target k = Some v ->
  own_get (merge_members reserved chain target src) k = Some v.
Proof.
  unfold merge_members. revert target.
  induction src as [|[k' v'] src IH]; intros target Hk; simpl; [done|].
  apply IH.
  destruct (negb (reserved k') && negb (has_key target chain k')) eqn:E; [|done].
  rewrite own_get_set. destruct (String.eqb k' k) eqn:Ek; [|done].
  apply String.eqb_eq in Ek. subst k'.
  apply andb_prop in E as [_ E]. unfold has_key in E. by rewrite Hk in E.
Qed.

Lemma merge_members_adds (reserved : string -> bool) (chain target src : obj)
    (k : string) (v : value) :
  reserved k = false ->
  has_key target chain k = false ->
  own_get src k = Some v ->
  own_get (merge_members reserved chain target src) k = Some v.
Proof.
  unfold merge_members. revert target.
  induction src as [|[k' v'] src IH]; intros target Hr Hk Hsrc; simpl in *; [done|].
  destruct (String.eqb k' k) eqn:Ek.
  - apply String.eqb_eq in Ek. simplify_eq. rewrite Hr, Hk. simpl.
    apply (merge_members_keeps reserved). apply own_get_set_eq.
  - destruct (negb (reserved k') && negb (has_key target chain k')).
    + apply IH; [done| |done]. rewrite has_key_set, Ek. done.
    + by apply IH.
Qed.

Lemma merge_members_skips (reserved : string -> bool) (chain target src : obj)
    (k : string) :
  reserved k = true ->
  own_get (merge_members reserved chain target src) k = own_get target k.
Proof.
  unfold merge_members. revert target.
  induction src as [|[k' v'] src IH]; intros target Hr; simpl; [done|].
  rewrite IH by done.
  destruct (negb (reserved k') && negb (has_key target chain k')) eqn:E; [|done].
  apply own_get_set_ne. intros ->. by rewrite Hr in E.
Qed.

Lemma merge_mixin_from (c c' : construct) (m : value) :
  merge_mixin c m = Ok c' ->
  exists class_proto statics, c' = merge_from c class_proto statics.
Proof.
  destruct m; simpl; intros H; try done.
  - destruct (get fields [] "prototype"); try done. simplify_eq. eauto.
  - simplify_eq. eauto.
Qed.

Lemma merge_mixin_keeps (c c' : construct) (m : value) :
  merge_mixin c m = Ok c' ->
  (forall k v, own_get (c_proto c) k = Some v -> own_get (c_proto c') k = Some v) /\
  (forall k v, own_get (c_static c) k = Some v -> own_get (c_static c') k = Some v).
Proof.
  intros (class_proto & statics & ->)%merge_mixin_from. simpl.
  split; intros k v Hk; by apply merge_members_keeps.
Qed.

Lemma merge_mixins_keeps (mixins : list value) (c c' : construct) :
  merge_mixins c mixins = Ok c' ->
  (forall k v, own_get (c_proto c) k = Some v -> own_get (c_proto c') k = Some v) /\
  (forall k v, own_get (c_static c) k = Some v -> own_get (c_static c') k = Some v).
Proof.
  revert c. induction mixins as [|m mixins IH]; intros c H; simpl in H.
  - by simplify_eq.
  - destruct (merge_mixin c m) as [c1|e] eqn:Hm; [|done]. simpl in H.
    destruct (merge_mixin_keeps _ _ _ Hm) as [Hp Hs].
    destruct (IH _ H) as [Hp' Hs']. split; eauto.
Qed.

(** C8, as stated, fails for the member name [__name]: both mixins have
    it, the target does not, and the merged target still lacks it.  It
    also fails for a name the target only inherits: the target declares
    no [describe], both mixins do, and the merged target still answers
    with the inherited one. *)
Lemma mixin_first_wins_counterexample :
  (exists c' : construct,
     merge_mixins bare_target [mixin_A; mixin_B] = Ok c' /\
     has_key (c_proto bare_target) (c_proto_chain bare_target) "__name" = false /\
     own_get (c_proto c') "__name" = None /\
     own_get (c_proto c') "__name" <> Some (VStr "A")) /\
  (exists c' : construct,
     merge_mixins derived_target [mixin_DA; mixin_DB] = Ok c' /\
     own_get (c_proto derived_target) "describe" = None /\
     own_get (c_proto c') "describe" = None /\
     get (c_proto c') (c_proto_chain c') "describe" = describe_base).
Proof.
  split; eexists; repeat split; try reflexivity. discriminate.
Qed.

(** C8, amended.  Merging never changes an own entry of the target's
    instance template or static table; and for mixins [[A; B]], a
    member name that the copy loops do not skip ([__name],
    [constructor], [prototype] on the template; [name], [length],
    [prototype] on the static table), present in both [A] and [B] and
    neither declared nor inherited by the target, ends up with [A]'s
    value; the names the loops skip are never merged. *)
Theorem mixin_first_wins (c c' : construct) (srcA srcB : string)
    (sA scA pA pcA sB scB pB pcB : obj) :
  merge_mixins c [VClass srcA sA scA pA pcA; VClass srcB sB scB pB pcB] = Ok c' ->
  (forall k v, own_get (c_proto c) k = Some v -> own_get (c_proto c') k = Some v) /\
  (forall k v, own_get (c_static c) k = Some v -> own_get (c_static c') k = Some v) /\
  (forall k va vb,
     proto_reserved k = false ->
     own_get pA k = Some va -> own_get pB k = Some vb ->
     has_key (c_proto c) (c_proto_chain c) k = false ->
     own_get (c_proto c') k = Some va) /\
  (forall k va vb,
     static_reserved k = false ->
     own_get sA k = Some va -> own_get sB k = Some vb ->
     has_key (c_static c) (c_static_chain c) k = false ->
     own_get (c_static c') k = Some va) /\
  (forall k, proto_reserved k = true ->
             own_get (c_proto c') k = own_get (c_proto c) k) /\
  (forall k, static_reserved k = true ->
             own_get (c_static c') k = own_get (c_static c) k).
Proof.
  intros H.
  destruct (merge_mixins_keeps _ _ _ H) as [Hp Hs].
  split; [done|]. split; [done|].
  simpl in H. simplify_eq. simpl.
  split; [|split; [|split]].
  - intros k va vb Hr HA HB Habs.
    apply merge_members_keeps. by apply merge_members_adds.
  - intros k va vb Hr HA HB Habs.
    apply merge_members_keeps. by apply merge_members_adds.
  - intros k Hr. by rewrite !merge_members_skips.
  - intros k Hr. by rewrite !merge_members_skips.
Qed.

Lemma mixin_first_wins_witness :
  merge_mixins bare_target [mixin_A; mixin_B]
  = Ok (Construct "class T {" [] [] [("size", VNum 8)] []) /\
  own_get [("size", VNum 8)] "size" = Some (VNum 8).
Proof.
  split; [reflexivity|].
  destruct (mixin_first_wins bare_target
              (Construct "class T {" [] [] [("size", VNum 8)] [])
              "class A {" "class B {"
              [] [] [("__name", VStr "A"); ("size", VNum 8)] []
              [] [] [("__name", VStr "B"); ("size", VNum 12)] [] eq_refl)
    as (_ & _ & Hfirst & _).
  exact (Hfirst "size" (VNum 8) (VNum 12) eq_refl eq_refl eq_refl eq_refl).
Defined.

(** ** Configuration keys *)

Lemma bind_ok {A B : Type} (r : result A) (f : A -> result B) (b : B) :
  bind r f = Ok b -> exists a, r = Ok a /\ f a = Ok b.
Proof. destruct r as [a|e]; simpl; [eauto|done]. Qed.

Lemma Class_args (EventEmitter : value) (args args' : obj) (c c' : construct) :
  Class EventEmitter args c = Ok (args', c') ->
  exists mixins, assemble_mixins EventEmitter HookHelper args = Ok (mixins, args').
Proof.
  unfold Class. intros H.
  apply bind_ok in H as ([mixins args1] & Hma & H).
  apply bind_ok in H as (c1 & _ & H).
  apply bind_ok in H as (c2 & _ & H).
  simpl in H. simplify_eq. eauto.
Qed.

(** C4, on the code: a configuration with a mixin list and one ordinary
    key. The builder copies the ordinary key onto the instance
    template, and copies the reserved [__mixins] key there as well:
    the pattern that filters the directive keys names [static],
    [asyncify], [events] and [hooks] only. *)
Theorem instance_defaults_copy_mixins (EventEmitter : value) :
  meta_key "__mixins" = false /\
  exists (args' : obj) (c' : construct),
    Class EventEmitter [("__mixins", VArr [mixin_B]); ("nickname", VStr "")]
      bare_target = Ok (args', c') /\
    own_get (c_proto c') "nickname" = Some (VStr "") /\
    own_get (c_proto c') "__mixins" = Some (VArr [mixin_B]).
Proof. split; [reflexivity|]. eexists _, _. repeat split; reflexivity. Qed.

(** C10.  With the events or the hooks flag set and a mixin list
    supplied, a call of the builder that returns leaves the caller's
    configuration with a longer mixin list: the hook dispatcher (if
    enabled), then the event emitter (if enabled), then the entries
    the caller listed. *)
Theorem Class_mutates_mixins (EventEmitter : value) (args args' : obj)
    (c c' : construct) (items : list value) :
  get args [] "__mixins" = VArr items ->
  truthy (get args [] "__events") || truthy (get args [] "__hooks") = true ->
  Class EventEmitter args c = Ok (args', c') ->
  exists items' : list value,
    get args' [] "__mixins" = VArr items' /\
    items' = ((if truthy (get args [] "__hooks") then [HookHelper] else []) ++
              (if truthy (get args [] "__events") then [EventEmitter] else []) ++
              items)%list /\
    (length items < length items')%nat /\
    args' <> args.
Proof.
  intros Hgiven Hflag HClass.
  destruct (Class_args _ _ _ _ _ HClass) as (mixins & Hma).
  unfold assemble_mixins in Hma. rewrite Hgiven in Hma. cbn [truthy] in Hma.
  rewrite Hflag in Hma. simplify_eq.
  eexists. split; [by rewrite get_set, String.eqb_refl|].
  split; [by rewrite <- app_assoc|].
  assert (Hlen : (length items <
    length (((if truthy (get args [] "__hooks") then [HookHelper] else []) ++
             (if truthy (get args [] "__events") then [EventEmitter] else [])) ++
            items))%nat).
  { rewrite !length_app.
    destruct (truthy (get args [] "__hooks")), (truthy (get args [] "__events"));
      simpl in *; first [lia | done]. }
  split; [done|].
  intros Heq.
  assert (Hg : get (own_set args "__mixins"
                 (VArr (((if truthy (get args [] "__hooks") then [HookHelper] else []) ++
                         (if truthy (get args [] "__events") then [EventEmitter] else [])) ++
                        items))) [] "__mixins" = VArr items) by (by rewrite Heq).
  rewrite get_set, String.eqb_refl in Hg. injection Hg as Hg.
  apply (f_equal length) in Hg. lia.
Qed.

Lemma Class_mutates_mixins_witness :
  exists (args' : obj) (c' : construct) (items' : list value),
    Class VUndef hooks_config bare_target = Ok (args', c') /\
    get args' [] "__mixins" = VArr items' /\
    (length [mixin_A] < length items')%nat.
Proof.
  destruct (Class VUndef hooks_config bare_target) as [[args' c']|e] eqn:HClass;
    [|discriminate HClass].
  destruct (Class_mutates_mixins VUndef hooks_config args' bare_target c'
              [mixin_A] eq_refl eq_refl HClass) as (items' & Hget & _ & Hlen & _).
  exists args', c', items'. repeat split; assumption.
Defined.

(** ** The asyncify pass *)

(** The rounds of a loop whose test only passes on what is
    [convertible]. *)
Section ConversionLoop.

Context {K : Type}.
Variable key_of : K -> string.
Variable names_of : K -> value.
Variable test : string -> value -> bool.
Variable chain : obj.

Hypothesis test_convertible :
  forall (k : string) (v : value), test k v = true -> convertible v = true.

Local Abbreviation loop := (fold_left (round key_of names_of test chain)).

Lemma test_converted (k : string) (v n : value) :
  test k (set_async_marker (asyncify v n)) = false.
Proof.
  destruct (test k (set_async_marker (asyncify v n))) eqn:E; [|done].
  apply test_convertible in E. discriminate E.
Qed.

Lemma rounds_get (ks : list K) (proto : obj) (k' : string) :
  get (loop ks proto) chain k' =
  let v := get proto chain k' in
  match find (fun k => String.eqb (key_of k) k') ks with
  | Some k => if test k' v then set_async_marker (asyncify v (names_of k)) else v
  | None => v
  end.
Proof.
  revert proto. induction ks as [|k ks IH]; intros proto; simpl; [done|].
  rewrite IH. cbn zeta. unfold round, convert.
  destruct (String.eqb (key_of k) k') eqn:Ek.
  - apply String.eqb_eq in Ek. subst k'.
    destruct (test (key_of k) (get proto chain (key_of k))) eqn:Et.
    + rewrite get_set, String.eqb_refl. rewrite test_converted.
      by destruct (find _ ks).
    + rewrite Et. by destruct (find _ ks).
  - destruct (test (key_of k) (get proto chain (key_of k))); [|done].
    by rewrite get_set, Ek.
Qed.

Lemma rounds_settled (ks : list K) (proto : obj) :
  (forall k, k ∈ ks -> test (key_of k) (get proto chain (key_of k)) = false) ->
  loop ks proto = proto.
Proof.
  induction ks as [|k ks IH]; intros Hs; simpl; [done|].
  unfold round. rewrite Hs by set_solver. apply IH.
  intros k' Hk'. apply Hs. set_solver.
Qed.



End ConversionLoop.

Lemma own_keys_set_own (o : obj) (k : string) (v : value) :
  k ∈ own_keys o -> own_keys (own_set o k v) = own_keys o.
Proof.
  unfold own_keys. induction o as [|[k' v'] o IH]; simpl; intros Hk.
  - by apply elem_of_nil in Hk.
  - destruct (String.eqb k' k) eqn:E; simpl; [done|].
    f_equal. apply IH. apply elem_of_cons in Hk as [->|Hk]; [|done].
    by rewrite String.eqb_refl in E.
Qed.

Lemma rounds_own_keys (test : string -> value -> bool) (chain : obj)
    (ks : list string) (proto : obj) :
  (forall k, k ∈ ks -> k ∈ own_keys proto) ->
  own_keys (fold_left (round id (fun _ => VUndef) test chain) ks proto)
  = own_keys proto.
Proof.
  revert proto. induction ks as [|k ks IH]; intros proto Hks; simpl; [done|].
  assert (Hk : own_keys (round id (fun _ => VUndef) test chain proto k)
               = own_keys proto).
  { unfold round, convert, id.
    destruct (test k (get proto chain k)); [|done].
    apply own_keys_set_own. apply Hks. set_solver. }
  rewrite IH; [done|]. intros k' Hk'. rewrite Hk. apply Hks. set_solver.
Qed.

Lemma named_test_convertible (k : string) (v : value) :
  named_test k v = true -> convertible v = true.
Proof. unfold named_test. by intros [_ ?]%andb_prop. Qed.

Lemma own_test_convertible (select : string -> value -> bool) (k : string)
    (v : value) :
  own_test select k v = true -> convertible v = true.
Proof. unfold own_test. by intros [_ ?]%andb_prop. Qed.

Lemma asyncify_named_round (chain proto : obj) (kv : string * value) :
  asyncify_named chain proto (fst kv) (snd kv)
  = round fst snd named_test chain proto kv.
Proof. done. Qed.

Lemma asyncify_own_round (select : string -> value -> bool) (chain proto : obj)
    (k : string) :
  asyncify_own select chain proto k
  = round id (fun _ => VUndef) (own_test select) chain proto k.
Proof. done. Qed.






(** ** The callback-signature pattern *)








(** ** The hook dispatcher: orderly traces *)

Section Orderly.

Variable behave : nat -> list value -> outcome.
Variable hooks : registry.
Variable name : string.
Variable thingy : value.

Hypothesis Hconv : conventional behave hooks name thingy.

Lemma start_listener_orderly (i : nat) (h : value) (st : fire_state) :
  handlers hooks name !! i = Some h ->
  observed (trace st) (Idle i) ->
  queue st = [] ->
  idx st = S i ->
  orderly (start_listener behave thingy i h st).
Proof.
  intros Hh Hobs Hq Hidx. unfold start_listener.
  assert (Hrun : observed (trace (emit (EvBegin i) st)) (Running i))
    by (by apply obs_begin).
  destruct (is_async_function h) eqn:Ha.
  - destruct (returned_promise _) as [[|v|e]|].
    + exists (Running i). simpl. by rewrite Hq.
    + exists (Running i). simpl. by rewrite Hq.
    + exists (Running i). simpl. by rewrite Hq.
    + exists (Running i). simpl. rewrite Hq. split; [|done].
      by apply obs_passive.
  - specialize (Hconv i h Hh Ha). unfold calls_once in Hconv.
    destruct (invoke behave h [thingy; VNext i]) as [sync later fin].
    simpl in *.
    assert (Hfin : forall st1 ph,
              observed (trace st1) ph -> queue_ok ph (idx st1) (queue st1) ->
              orderly match fin with
                      | Throw e => emit (EvThrow e) st1
                      | Return _ => st1
                      end).
    { intros st1 ph H1 H2. destruct fin.
      - by exists ph.
      - exists ph. simpl. split; [by apply obs_passive | done]. }
    destruct sync as [|a [|? ?]]; simpl in *; [|destruct later; simpl in *|lia];
      [destruct later as [|a [|? ?]]; simpl in *|..]; try lia.
    + apply (Hfin _ (Running i)); [done|]. simpl. by rewrite Hq.
    + apply (Hfin _ (Running i)); [done|]. simpl. by rewrite Hq.
    + unfold next_call, verdict.
      destruct (truthy (hd VUndef a)) eqn:Et.
      * apply (Hfin _ Done); simpl; [|by rewrite Hq].
        rewrite <- app_assoc. by apply obs_fail.
      * apply (Hfin _ (Idle (S i))); simpl; [|by rewrite Hq, Hidx].
        by apply obs_end.
Qed.

Lemma iterator_orderly (st : fire_state) :
  observed (trace st) (Idle (idx st)) ->
  queue st = [] ->
  orderly (iterator behave hooks name thingy st).
Proof.
  intros Hobs Hq. unfold iterator.
  destruct (handlers hooks name !! idx st) as [h|] eqn:Hh.
  - destruct (truthy h).
    + by apply start_listener_orderly.
    + exists Done. simpl. rewrite Hq. split; [|done]. by eapply obs_done.
  - exists Done. simpl. rewrite Hq. split; [|done]. by eapply obs_done.
Qed.

Lemma next_call_orderly (i : nat) (nextThread : bool) (cb_args : list value)
    (st : fire_state) :
  observed (trace st) (Running i) ->
  queue st = [] ->
  idx st = S i ->
  orderly (next_call (iterator behave hooks name thingy) i nextThread cb_args st).
Proof.
  intros Hobs Hq Hidx. unfold next_call, verdict.
  destruct (truthy (hd VUndef cb_args)) eqn:Et.
  - exists Done. simpl. rewrite Hq. split; [|done].
    rewrite <- app_assoc. by apply obs_fail.
  - destruct nextThread.
    + apply iterator_orderly; simpl; [|done]. rewrite Hidx. by apply obs_end.
    + exists (Idle (S i)). simpl. rewrite Hq, Hidx. split; [|done]. by apply obs_end.
Qed.

Lemma run_task_orderly (t : task) (st : fire_state) :
  (exists ph, observed (trace st) ph /\ queue_ok ph (idx st) [t]) ->
  queue st = [] ->
  orderly (run_task behave hooks name thingy t st).
Proof.
  intros (ph & Hobs & Hok) Hq. unfold run_task.
  assert (Htick : observed (trace (emit EvTick st)) ph) by (by apply obs_passive).
  destruct t as [| |i b a|i p]; simpl in Hok.
  - subst ph. by apply iterator_orderly.
  - destruct Hok as [n ->]. exists Done. simpl. rewrite Hq. split; [|done].
    by eapply obs_done.
  - destruct Hok as [-> Hidx]. by apply next_call_orderly.
  - destruct Hok as (-> & Hidx & Hp). destruct p as [|v|e]; [done| |].
    + apply iterator_orderly; simpl; [|done]. rewrite Hidx. by apply obs_end.
    + exists Done. simpl. rewrite Hq. split; [|done].
      rewrite <- app_assoc. by apply obs_fail.
Qed.

Lemma run_orderly (fuel : nat) (st : fire_state) :
  orderly st -> orderly (run behave hooks name thingy fuel st).
Proof.
  revert st. induction fuel as [|fuel IH]; intros st Hst; simpl; [done|].
  destruct (queue st) as [|t rest] eqn:Hq; [done|].
  apply IH. destruct Hst as (ph & Hobs & Hok). rewrite Hq in Hok.
  assert (rest = []) as ->.
  { destruct t, rest; simpl in Hok; done. }
  apply run_task_orderly; [|done]. by exists ph.
Qed.

Lemma fireHook_call_orderly : orderly (fireHook_call behave hooks name thingy).
Proof.
  unfold fireHook_call.
  assert (Hemit : forall st, orderly st -> orderly (emit EvReturn st)).
  { intros st (ph & Hobs & Hok). exists ph. split; [|done]. by apply obs_passive. }
  apply Hemit.
  assert (Hempty : orderly (enqueue TCallback (FireState 0 [] []))).
  { exists (Idle 0). split; [constructor|]. simpl. by exists 0%nat. }
  destruct (listeners hooks name) as [[|h hs]|]; [done| |done].
  apply iterator_orderly; [constructor|done].
Qed.

Lemma fireHook_orderly (fuel : nat) :
  orderly (fireHook behave hooks name thingy fuel).
Proof. apply run_orderly, fireHook_call_orderly. Qed.

End Orderly.

Lemma begins_app (l1 l2 : list event) :
  begins (l1 ++ l2) = (begins l1 ++ begins l2)%list.
Proof. apply omap_app. Qed.

Lemma ends_app (l1 l2 : list event) : ends (l1 ++ l2) = (ends l1 ++ ends l2)%list.
Proof. apply omap_app. Qed.

Lemma callbacks_app (l1 l2 : list event) :
  callbacks (l1 ++ l2) = (callbacks l1 ++ callbacks l2)%list.
Proof. apply omap_app. Qed.

Lemma passive_silent (ev : event) :
  passive ev = true -> begins [ev] = [] /\ ends [ev] = [] /\ callbacks [ev] = [].
Proof. by destruct ev. Qed.

Lemma seq_snoc (n : nat) : seq 0 (S n) = (seq 0 n ++ [n])%list.
Proof. by rewrite seq_S. Qed.

Lemma observed_counts (tr : list event) (ph : phase) :
  observed tr ph -> phase_counts tr ph.
Proof.
  induction 1 as [|tr n _ IH|tr i v _ IH|tr i e _ IH|tr n _ IH|tr ph ev _ IH Hp];
    cbn [phase_counts] in *.
  - done.
  - destruct IH as (Hb & He & Hc).
    rewrite begins_app, ends_app, callbacks_app, Hb, He, Hc, seq_snoc.
    simpl. by rewrite !app_nil_r.
  - destruct IH as (Hb & He & Hc).
    rewrite begins_app, ends_app, callbacks_app, Hb, He, Hc, (seq_snoc i).
    simpl. by rewrite !app_nil_r.
  - destruct IH as (Hb & He & Hc). exists (S i).
    rewrite begins_app, ends_app, Hb, He, (seq_snoc i). simpl.
    by rewrite !app_nil_r.
  - destruct IH as (Hb & He & Hc). exists n.
    rewrite begins_app, ends_app, Hb, He. simpl. by rewrite !app_nil_r.
  - destruct (passive_silent ev Hp) as (Hb & He & Hc).
    destruct ph as [n|i|]; cbn [phase_counts] in *.
    + destruct IH as (Hb' & He' & Hc').
      by rewrite begins_app, ends_app, callbacks_app, Hb, He, Hc, Hb', He', Hc', !app_nil_r.
    + destruct IH as (Hb' & He' & Hc').
      by rewrite begins_app, ends_app, callbacks_app, Hb, He, Hc, Hb', He', Hc', !app_nil_r.
    + destruct IH as (n & Hb' & He'). exists n.
      by rewrite begins_app, ends_app, Hb, He, Hb', He', !app_nil_r.
Qed.



Lemma passive_clean (ev : event) : passive ev = true -> clean ev = true.
Proof. by destruct ev. Qed.

Lemma forallb_snoc {A : Type} (f : A -> bool) (l : list A) (x : A) :
  forallb f (l ++ [x]) = forallb f l && f x.
Proof. rewrite forallb_app. simpl. by rewrite andb_true_r. Qed.

Lemma observed_ending (tr : list event) (ph : phase) :
  observed tr ph ->
  match ph with
  | Done => ended_well tr \/ exists i e, ended_in_failure tr i e
  | _ => forallb clean tr = true
  end.
Proof.
  induction 1 as [|tr n _ IH|tr i v _ IH|tr i e _ IH|tr n _ IH|tr ph ev _ IH Hp].
  - done.
  - by rewrite forallb_snoc, IH.
  - by rewrite forallb_snoc, IH.
  - right. exists i, e, tr, []. done.
  - left. exists tr, []. done.
  - destruct ph as [n|i|].
    + by rewrite forallb_snoc, IH, passive_clean.
    + by rewrite forallb_snoc, IH, passive_clean.
    + destruct IH as [(pre & post & -> & Hpre & Hpost)
                     |(i & e & pre & post & -> & Hpre & Hpost)].
      * left. exists pre, (post ++ [ev])%list.
        rewrite <- app_assoc. simpl. by rewrite forallb_snoc, Hpost, Hp.
      * right. exists i, e, pre, (post ++ [ev])%list.
        rewrite <- app_assoc. simpl. by rewrite forallb_snoc, Hpost, Hp.
Qed.

Lemma forallb_elem {A : Type} (f : A -> bool) (l : list A) (x : A) :
  forallb f l = true -> x ∈ l -> f x = true.
Proof.
  intros Hl Hx. rewrite forallb_forall in Hl. apply Hl. by apply list_elem_of_In.
Qed.

Lemma passive_begins (post : list event) :
  forallb passive post = true ->
  begins post = [] /\ ends post = [] /\ callbacks post = [].
Proof.
  induction post as [|ev post IH]; simpl; [done|].
  intros [Hev Hpost]%andb_prop. destruct (IH Hpost) as (Hb & He & Hc).
  unfold begins, ends, callbacks in *. simpl. rewrite Hb, He, Hc.
  by destruct ev.
Qed.

Lemma clean_callbacks (pre : list event) :
  forallb clean pre = true -> callbacks pre = [].
Proof.
  induction pre as [|ev pre IH]; simpl; [done|].
  intros [Hev Hpre]%andb_prop. unfold callbacks in *. simpl. rewrite (IH Hpre).
  by destruct ev.
Qed.

(** After a failure: the fire's callback received exactly the failure
    value, once, right after the listener signalled it, and nothing
    but passive events follow. *)
Lemma observed_failure (tr : list event) (ph : phase) (i : nat) (e : value) :
  observed tr ph ->
  EvEnd i (Rejected e) ∈ tr ->
  ended_in_failure tr i e /\ callbacks tr = [[e]].
Proof.
  intros Hobs Hin. pose proof (observed_ending _ _ Hobs) as Hend.
  assert (Hno : forall l, forallb clean l = true -> EvEnd i (Rejected e) ∈ l -> False).
  { intros l Hl Hx. by pose proof (forallb_elem _ _ _ Hl Hx). }
  assert (Hnop : forall l, forallb passive l = true -> EvEnd i (Rejected e) ∈ l -> False).
  { intros l Hl Hx. by pose proof (forallb_elem _ _ _ Hl Hx). }
  destruct ph as [n|j|]; [by destruct (Hno tr)|by destruct (Hno tr)|].
  destruct Hend as [(pre & post & -> & Hpre & Hpost)
                   |(j & e' & pre & post & -> & Hpre & Hpost)].
  - exfalso. apply elem_of_app in Hin as [Hin|Hin]; [by eapply Hno|].
    apply elem_of_cons in Hin as [Hin|Hin]; [done|by eapply Hnop].
  - apply elem_of_app in Hin as [Hin|Hin]; [by destruct (Hno pre)|].
    apply elem_of_cons in Hin as [Hin|Hin].
    + injection Hin as Hi He. subst j e'. split; [by exists pre, post|].
      rewrite callbacks_app, (clean_callbacks pre) by done.
      destruct (passive_begins post Hpost) as (_ & _ & Hc).
      change (callbacks (EvEnd i (Rejected e) :: EvCallback [e] :: post))
        with ([e] :: callbacks post).
      by rewrite Hc.
    + apply elem_of_cons in Hin as [Hin|Hin]; [done|by destruct (Hnop post)].
Qed.

(** ** The hook dispatcher: every listener is reached *)

Section Completion.

Variable behave : nat -> list value -> outcome.
Variable hooks : registry.
Variable name : string.
Variable thingy : value.

Lemma succeeds_calls_once (i : nat) (h : value) :
  succeeds behave thingy i h -> is_async_function h = false ->
  calls_once (invoke behave h [thingy; VNext i]).
Proof.
  intros [_ Hs] Ha. rewrite Ha in Hs. unfold calls_once.
  destruct Hs as (a & r & _ & _ & [[-> ->]|[-> ->]]); simpl; lia.
Qed.

Lemma all_succeed_conventional :
  all_succeed behave hooks name thingy -> conventional behave hooks name thingy.
Proof. intros Hall i h Hh Ha. apply succeeds_calls_once; auto. Qed.






Hypothesis Hall : all_succeed behave hooks name thingy.



End Completion.

(** ** The hook dispatcher: order, failure and the empty sequence *)




Lemma slow_quick_conventional :
  conventional listener_behave (registered [slow_fn; quick_fn]) "x" (VStr "present").
Proof.
  intros i h Hh _.
  assert (Hl : handlers (registered [slow_fn; quick_fn]) "x" = [slow_fn; quick_fn])
    by (vm_compute; reflexivity).
  rewrite Hl in Hh.
  destruct i as [|[|i]]; simpl in Hh; [| |discriminate Hh];
    injection Hh as <-; unfold calls_once; simpl; lia.
Defined.


(** C2, as stated, fails.  An async listener that rejects with [null]
    aborts the fire, but the fire's callback receives [null] as its
    error argument, which both calling styles read as success: the
    overall completion carries no failure.  And after a listener
    that invokes its callback successfully and then with an error, the
    next listener is still invoked. *)
Lemma fireHook_failure_counterexample :
  trace (fireHook listener_behave (registered [rejecting_fn; quick_fn]) "x"
           (VStr "present") 6)
  = [EvBegin 0; EvReturn; EvTick; EvEnd 0 (Rejected VNull); EvCallback [VNull]] /\
  complete VUndef [VNull] = Some (Resolved VUndef) /\
  complete VUndef [VNull] <> Some (Rejected VNull) /\
  verdict [VNull] = Resolved VUndef /\
  trace (fireHook listener_behave (registered [late_fail_fn; quick_fn]) "x"
           (VStr "present") 6)
  = [EvBegin 0; EvEnd 0 (Resolved VUndef); EvEnd 0 (Rejected (VStr "boom"));
     EvCallback [VStr "boom"]; EvReturn; EvTick; EvBegin 1;
     EvEnd 1 (Resolved VUndef); EvTick; EvCallback []].
Proof.
  split; [vm_compute; reflexivity|]. split; [reflexivity|].
  split; [discriminate|]. split; [reflexivity|]. vm_compute; reflexivity.
Qed.

(** C2, amended.  Provided every callback-style listener invokes its
    completion callback at most once: if a listener signals failure
    with value [e] (a truthy first callback argument, or a rejection),
    then the fire's callback is invoked at once with exactly [e], it
    is not invoked any other time, and no listener begins or ends
    afterwards; when [e] is truthy, that invocation is a failure with
    reason [e] for a callback-style caller and for the promise of the
    converted [fireHook]. *)
Theorem fireHook_failure_aborts (behave : nat -> list value -> outcome)
    (hooks : registry) (name : string) (thingy : value) (fuel i : nat)
    (e : value) :
  conventional behave hooks name thingy ->
  EvEnd i (Rejected e) ∈ trace (fireHook behave hooks name thingy fuel) ->
  (exists pre post,
     trace (fireHook behave hooks name thingy fuel)
     = (pre ++ EvEnd i (Rejected e) :: EvCallback [e] :: post)%list /\
     begins post = [] /\ ends post = [] /\ callbacks post = [] /\
     callbacks pre = []) /\
  callbacks (trace (fireHook behave hooks name thingy fuel)) = [[e]] /\
  (truthy e = true ->
   verdict [e] = Rejected e /\ complete VUndef [e] = Some (Rejected e)).
Proof.
  intros Hconv Hin.
  destruct (fireHook_orderly behave hooks name thingy Hconv fuel)
    as (ph & Hobs & _).
  destruct (observed_failure _ _ _ _ Hobs Hin)
    as [(pre & post & Htr & Hpre & Hpost) Hcb].
  split; [|split; [done|]].
  - exists pre, post. split; [done|].
    destruct (passive_begins post Hpost) as (Hb & He & Hc).
    split; [done|]. split; [done|]. split; [done|]. by apply clean_callbacks.
  - intros Ht. unfold verdict, complete. simpl. by rewrite Ht.
Qed.

Lemma slow_failing_conventional :
  conventional listener_behave (registered [slow_fn; failing_fn; quick_fn]) "x"
    (VStr "present").
Proof.
  intros i h Hh _.
  assert (Hl : handlers (registered [slow_fn; failing_fn; quick_fn]) "x"
               = [slow_fn; failing_fn; quick_fn])
    by (vm_compute; reflexivity).
  rewrite Hl in Hh.
  destruct i as [|[|[|i]]]; simpl in Hh; [| | |discriminate Hh];
    injection Hh as <-; unfold calls_once; simpl; lia.
Defined.

Lemma slow_failing_trace :
  trace (fireHook listener_behave (registered [slow_fn; failing_fn; quick_fn]) "x"
           (VStr "present") 6)
  = [EvBegin 0; EvReturn; EvTick; EvEnd 0 (Resolved VUndef); EvBegin 1;
     EvEnd 1 (Rejected (VStr "boom")); EvCallback [VStr "boom"]].
Proof. vm_compute; reflexivity. Defined.

Lemma fireHook_failure_aborts_witness :
  conventional listener_behave (registered [slow_fn; failing_fn; quick_fn]) "x"
    (VStr "present") /\
  EvEnd 1 (Rejected (VStr "boom"))
    ∈ trace (fireHook listener_behave (registered [slow_fn; failing_fn; quick_fn])
               "x" (VStr "present") 6) /\
  callbacks (trace (fireHook listener_behave
                      (registered [slow_fn; failing_fn; quick_fn]) "x"
                      (VStr "present") 6))
  = [[VStr "boom"]].
Proof.
  assert (Hin : EvEnd 1 (Rejected (VStr "boom"))
                  ∈ trace (fireHook listener_behave
                             (registered [slow_fn; failing_fn; quick_fn])
                             "x" (VStr "present") 6)).
  { rewrite slow_failing_trace. apply list_elem_of_In. simpl. tauto. }
  split; [exact slow_failing_conventional|]. split; [exact Hin|].
  destruct (fireHook_failure_aborts listener_behave
              (registered [slow_fn; failing_fn; quick_fn]) "x" (VStr "present")
              6 1 (VStr "boom") slow_failing_conventional Hin) as (_ & Hcb & _).
  exact Hcb.
Defined.



(** ** The unit tests of the repository *)

(** [props]: ordinary keys, [__special] included, reach the instance. *)
Example test_props :
  exists args' c',
    Class VUndef [("prop1", VStr "hello"); ("__special", VNum 12345)] test_Foo
    = Ok (args', c') /\
    get (c_proto c') (c_proto_chain c') "prop1" = VStr "hello" /\
    get (c_proto c') (c_proto_chain c') "__special" = VNum 12345.
Proof. eexists _, _. repeat split; reflexivity. Qed.

(** [static]: the static member is on the class, not on the instance. *)
Example test_static :
  exists args' c',
    Class VUndef [("__static", VObj [("prop1", VStr "hello")])] test_Foo
    = Ok (args', c') /\
    get (c_static c') (c_static_chain c') "prop1" = VStr "hello" /\
    get (c_proto c') (c_proto_chain c') "prop1" = VUndef.
Proof. eexists _, _. repeat split; reflexivity. Qed.

(** [asyncifyWithError], [asyncifyWithSingleArg], [asyncifyWithMultiArgs]. *)
Example test_asyncify_flag :
  test_await_pour [("__asyncify", VBool true)] [VStr "frogs"]
  = Some (Return (VPromise (Rejected (VStr "frogs")))) /\
  test_await_pour [("__asyncify", VBool true)] [VNull; VStr "8oz"]
  = Some (Return (VPromise (Resolved (VStr "8oz")))) /\
  test_await_pour [("__asyncify", VBool true)] [VNull; VNum 8; VStr "oz"]
  = Some (Return (VPromise (Resolved (VArr [VNum 8; VStr "oz"])))).
Proof. repeat split; reflexivity. Qed.

(** [asyncifyWithNamedArgs] *)
Example test_asyncify_named :
  test_await_pour [("__asyncify", VObj [("pour", amount_units)])]
    [VNull; VNum 8; VStr "oz"]
  = Some (Return (VPromise (Resolved
            (VObj [("amount", VNum 8); ("units", VStr "oz")])))).
Proof. reflexivity. Qed.

(** [hooks]: a listener that completes after a delay, then one that
    completes at once; the fire's callback comes last, with no error. *)
Example test_hooks :
  trace (fireHook listener_behave (registered [slow_fn; quick_fn]) "x"
           (VStr "present") 6)
  = [EvBegin 0; EvReturn; EvTick; EvEnd 0 (Resolved VUndef);
     EvBegin 1; EvEnd 1 (Resolved VUndef); EvTick; EvCallback []].
Proof. vm_compute; reflexivity. Qed.

(** * Further properties of the code *)

(** ** The hook registry *)



Section RemoveHookFacts.

Variable same : value -> value -> bool.

Lemma index_of_first (pre post : list value) (x h : value) :
  same x h = true ->
  Forall (fun y => same y h = false) pre ->
  index_of same (pre ++ x :: post)%list h = Some (length pre).
Proof.
  intros Hx Hpre. induction Hpre as [|y pre Hy _ IH]; simpl.
  - by rewrite Hx.
  - by rewrite Hy, IH.
Qed.


Lemma delete_middle (pre post : list value) (x : value) :
  delete (length pre) (pre ++ x :: post)%list = (pre ++ post)%list.
Proof. induction pre as [|y pre IH]; simpl; [done|]. by rewrite IH. Qed.

Lemma listeners_insert (table : gmap string (list value)) (name name' : string)
    (arr : list value) :
  listeners (Some (<[name := arr]> table)) name'
  = if decide (name = name') then Some arr else table !! name'.
Proof.
  simpl. destruct (decide (name = name')) as [->|Hne].
  - by rewrite lookup_insert_eq.
  - by rewrite lookup_insert_ne.
Qed.

Lemma listeners_delete (table : gmap string (list value)) (name name' : string) :
  listeners (Some (delete name table)) name'
  = if decide (name = name') then None else table !! name'.
Proof.
  simpl. destruct (decide (name = name')) as [->|Hne].
  - by rewrite lookup_delete_eq.
  - by rewrite lookup_delete_ne.
Qed.

Lemma listeners_default (hooks : registry) (name : string) :
  default ∅ hooks !! name = listeners hooks name.
Proof. destruct hooks; simpl; [done|]. by rewrite lookup_empty. Qed.

Lemma removeHook_first (hooks : registry) (name : string)
    (pre post : list value) (x h : value) :
  truthy h = true ->
  listeners hooks name = Some (pre ++ x :: post)%list ->
  same x h = true ->
  Forall (fun y => same y h = false) pre ->
  listeners (removeHook same hooks name h) name
  = match (pre ++ post)%list with
    | [] => None
    | rest => Some rest
    end /\
  (forall name', name' <> name ->
     listeners (removeHook same hooks name h) name' = listeners hooks name').
Proof.
  intros Ht Hl Hx Hpre. unfold removeHook. rewrite Ht, listeners_default, Hl.
  rewrite index_of_first, delete_middle by done.
  destruct (pre ++ post)%list as [|r rest] eqn:Hrest.
  - rewrite listeners_delete. split.
    + by rewrite decide_True.
    + intros name' Hne. rewrite listeners_delete, decide_False by done.
      apply listeners_default.
  - rewrite listeners_insert. split.
    + by rewrite decide_True.
    + intros name' Hne. rewrite listeners_insert, decide_False by done.
      apply listeners_default.
Qed.

(** X2.  [removeHook] with a handler removes the first registration
    of that handler only and keeps the others in their order; when
    nothing is left the name's entry is deleted rather than left
    empty; the sequences of other names are untouched. *)
Theorem removeHook_first_only (hooks : registry) (name : string)
    (pre post : list value) (x h : value) :
  truthy h = true ->
  listeners hooks name = Some (pre ++ x :: post)%list ->
  same x h = true ->
  Forall (fun y => same y h = false) pre ->
  handlers (removeHook same hooks name h) name = (pre ++ post)%list /\
  (pre ++ post = [] -> listeners (removeHook same hooks name h) name = None)%list /\
  (forall name', name' <> name ->
     listeners (removeHook same hooks name h) name' = listeners hooks name').
Proof.
  intros Ht Hl Hx Hpre.
  destruct (removeHook_first hooks name pre post x h Ht Hl Hx Hpre)
    as [Hsame Hother].
  split; [|split; [|done]].
  - unfold handlers. rewrite Hsame. by destruct (pre ++ post)%list.
  - intros Hnil. by rewrite Hsame, Hnil.
Qed.




End RemoveHookFacts.

Lemma removeHook_first_only_witness :
  truthy slow_fn = true /\
  listeners (registered [quick_fn; slow_fn; quick_fn; slow_fn]) "x"
  = Some ([quick_fn] ++ slow_fn :: [quick_fn; slow_fn])%list /\
  handlers (removeHook same_fn (registered [quick_fn; slow_fn; quick_fn; slow_fn])
              "x" slow_fn) "x"
  = [quick_fn; quick_fn; slow_fn].
Proof.
  assert (Hl : listeners (registered [quick_fn; slow_fn; quick_fn; slow_fn]) "x"
               = Some ([quick_fn] ++ slow_fn :: [quick_fn; slow_fn])%list)
    by (vm_compute; reflexivity).
  split; [reflexivity|]. split; [exact Hl|].
  destruct (removeHook_first_only same_fn
              (registered [quick_fn; slow_fn; quick_fn; slow_fn]) "x"
              [quick_fn] [quick_fn; slow_fn] slow_fn slow_fn eq_refl Hl eq_refl)
    as [Hsame _].
  - repeat constructor.
  - exact Hsame.
Defined.




(** ** The hook dispatcher: what a turn adds to the trace *)






Section Turns.

Variable behave : nat -> list value -> outcome.
Variable hooks : registry.
Variable name : string.
Variable thingy : value.









End Turns.







Lemma ended_well_callbacks (tr : list event) :
  ended_well tr -> callbacks tr = [[]].
Proof.
  intros (pre & post & -> & Hpre & Hpost).
  rewrite callbacks_app, (clean_callbacks pre) by done.
  destruct (passive_begins post Hpost) as (_ & _ & Hc).
  change (callbacks (EvCallback [] :: post)) with ([] :: callbacks post).
  by rewrite Hc.
Qed.

(** X8.  Provided callback-style listeners call back at most once, the
    fire's callback is invoked at most once: not yet, once with no
    argument, or once with the failure value a listener signalled. *)
Theorem fireHook_callback_once (behave : nat -> list value -> outcome)
    (hooks : registry) (name : string) (thingy : value) (fuel : nat) :
  conventional behave hooks name thingy ->
  let tr := trace (fireHook behave hooks name thingy fuel) in
  callbacks tr = [] \/
  callbacks tr = [[]] \/
  exists i e, EvEnd i (Rejected e) ∈ tr /\ callbacks tr = [[e]].
Proof.
  intros Hconv. cbn zeta.
  destruct (fireHook_orderly behave hooks name thingy Hconv fuel)
    as (ph & Hobs & _).
  pose proof (observed_counts _ _ Hobs) as Hcount.
  pose proof (observed_ending _ _ Hobs) as Hend.
  destruct ph as [n|i|].
  - left. by destruct Hcount as (_ & _ & Hc).
  - left. by destruct Hcount as (_ & _ & Hc).
  - destruct Hend as [Hwell|(i & e & Hfail)].
    + right. left. by apply ended_well_callbacks.
    + right. right. exists i, e.
      assert (Hin : EvEnd i (Rejected e)
                      ∈ trace (fireHook behave hooks name thingy fuel)).
      { destruct Hfail as (pre & post & -> & _).
        apply elem_of_app. right. apply elem_of_cons. by left. }
      split; [done|]. by destruct (observed_failure _ _ _ _ Hobs Hin).
Qed.

Lemma fireHook_callback_once_witness :
  conventional listener_behave (registered [slow_fn; quick_fn]) "x" (VStr "present") /\
  callbacks (trace (fireHook listener_behave (registered [slow_fn; quick_fn]) "x"
                      (VStr "present") 6)) = [[]].
Proof.
  split; [exact slow_quick_conventional|].
  destruct (fireHook_callback_once listener_behave (registered [slow_fn; quick_fn])
              "x" (VStr "present") 6 slow_quick_conventional)
    as [H|[H|(i & e & _ & H)]].
  - vm_compute in H. discriminate H.
  - exact H.
  - vm_compute in H. discriminate H.
Defined.

(** ** asyncify: exceptions, silence and the shape of results *)

Lemma invoke_converted_promise (behave : nat -> list value -> outcome)
    (origFunc argNames : value) (marked : bool) (args : list value) :
  is_function (default VUndef (last args)) = false ->
  invoke behave (converted origFunc argNames marked) args
  = Outcome [] [] (Return (VPromise (executor_result argNames
      (invoke behave origFunc (args ++ [VCompletion argNames]))))).
Proof.
  intros Hlast.
  destruct marked; unfold converted, asyncify; cbn [set_async_marker invoke];
    by rewrite Hlast.
Qed.

(** X9.  In promise style, when the original method never invokes the
    completion callback during its call: an exception it throws
    rejects the promise with the thrown value, whatever it does later;
    and if it returns and never calls back later either, the promise
    is never settled, whatever the method returned (a promise it
    returns itself is not awaited). *)
Theorem asyncify_without_callback (behave : nat -> list value -> outcome)
    (origFunc argNames : value) (marked : bool) (args : list value) :
  is_function (default VUndef (last args)) = false ->
  let o := invoke behave origFunc (args ++ [VCompletion argNames]) in
  sync_calls o = [] ->
  (forall e, finish o = Throw e ->
     finish (invoke behave (converted origFunc argNames marked) args)
     = Return (VPromise (Rejected e))) /\
  (forall v, finish o = Return v -> later_calls o = [] ->
     finish (invoke behave (converted origFunc argNames marked) args)
     = Return (VPromise Pending)).
Proof.
  intros Hlast o Hsync. rewrite invoke_converted_promise by done.
  fold o. unfold executor_result. rewrite Hsync. cbn [fold_left finish].
  split.
  - intros e ->. cbn [settle]. by rewrite run_settled.
  - intros v -> ->. done.
Qed.

(** A method that returns a promise of its own and never calls back. *)
Lemma asyncify_without_callback_witness :
  is_function (default VUndef (last [VNum 100])) = false /\
  finish (invoke (fun _ _ => Outcome [] [] (Return (VPromise (Resolved (VNum 1)))))
            (converted pour_fn VUndef true) [VNum 100])
  = Return (VPromise Pending).
Proof.
  split; [reflexivity|].
  destruct (asyncify_without_callback
              (fun _ _ => Outcome [] [] (Return (VPromise (Resolved (VNum 1)))))
              pour_fn VUndef true [VNum 100] eq_refl eq_refl) as [_ Hsilent].
  exact (Hsilent (VPromise (Resolved (VNum 1))) eq_refl eq_refl).
Defined.

Lemma own_keys_set (o : obj) (k k' : string) (v : value) :
  k' ∈ own_keys (own_set o k v) <-> k' = k \/ k' ∈ own_keys o.
Proof.
  unfold own_keys. induction o as [|[k0 v0] o IH]; simpl.
  - rewrite elem_of_cons. set_unfold. tauto.
  - destruct (String.eqb k0 k) eqn:E; simpl.
    + apply String.eqb_eq in E. subst k0. rewrite !elem_of_cons. tauto.
    + rewrite !elem_of_cons, IH. tauto.
Qed.

Lemma own_set_NoDup (o : obj) (k : string) (v : value) :
  NoDup (own_keys o) -> NoDup (own_keys (own_set o k v)).
Proof.
  unfold own_keys. induction o as [|[k0 v0] o IH]; simpl; intros Hnd.
  - apply NoDup_cons. split; [apply not_elem_of_nil|constructor].
  - apply NoDup_cons in Hnd as [Hk0 Hnd].
    destruct (String.eqb k0 k) eqn:E; simpl.
    + apply NoDup_cons. done.
    + apply NoDup_cons. split; [|by apply IH].
      intros Hin. apply (own_keys_set o k k0 v) in Hin as [->|Hin]; [|done].
      by rewrite String.eqb_refl in E.
Qed.

Lemma pack_from_keys (names : list string) (i : nat) (results : list value)
    (o : obj) (k : string) :
  k ∈ own_keys (pack_from names i results o) <-> k ∈ names \/ k ∈ own_keys o.
Proof.
  revert i o. induction names as [|n names IH]; intros i o; simpl.
  - set_unfold. tauto.
  - rewrite IH, own_keys_set, elem_of_cons. tauto.
Qed.

Lemma pack_from_NoDup (names : list string) (i : nat) (results : list value)
    (o : obj) :
  NoDup (own_keys o) -> NoDup (own_keys (pack_from names i results o)).
Proof.
  revert i o. induction names as [|n names IH]; intros i o Hnd; simpl; [done|].
  apply IH. by apply own_set_NoDup.
Qed.

Lemma nth_take (l : list value) (n j : nat) :
  (j < n)%nat -> nth j (take n l) VUndef = nth j l VUndef.
Proof.
  revert n j. induction l as [|x l IH]; intros n j Hj.
  - rewrite take_nil. done.
  - destruct n as [|n]; [lia|]. destruct j as [|j]; simpl; [done|].
    apply IH. lia.
Qed.

Lemma pack_from_take (names : list string) (i : nat) (results : list value)
    (o : obj) :
  pack_from names i (take (i + length names) results) o
  = pack_from names i results o.
Proof.
  revert i o. induction names as [|n names IH]; intros i o; simpl; [done|].
  rewrite nth_take by lia.
  replace (i + S (length names))%nat with (S i + length names)%nat by lia.
  apply IH.
Qed.

(** X10.  The object a converted method resolves with, when field
    names were given, has exactly the given names as its keys, each
    once: results beyond the names are dropped, and a name past the
    end of the results is present with the value [undefined]. *)
Theorem pack_shape (names : list string) (results : list value) :
  (forall k, k ∈ own_keys (pack names results) <-> k ∈ names) /\
  NoDup (own_keys (pack names results)) /\
  pack names (take (length names) results) = pack names results /\
  (forall (j : nat) (n : string),
     names !! j = Some n -> n ∉ drop (S j) names -> (length results <= j)%nat ->
     own_get (pack names results) n = Some VUndef) /\
  (forall e, truthy e = false ->
     complete (VArr (map VStr names)) (e :: results)
     = Some (Resolved (VObj (pack names results)))).
Proof.
  unfold pack. split; [|split; [|split; [|split]]].
  - intros k. rewrite pack_from_keys. set_unfold. tauto.
  - apply pack_from_NoDup. constructor.
  - apply (pack_from_take names 0).
  - intros j n Hj Hlast Hlen. rewrite (pack_from_get names 0 j) by done.
    by rewrite nth_overflow by (simpl; lia).
  - intros e He. unfold complete. simpl. rewrite He. by rewrite to_key_names.
Qed.

(** X11.  Selecting a property by name (the list form of the
    directive) does not check that it is a function: a truthy property
    that is not one is replaced by a marked wrapper all the same, and
    every call of that wrapper yields a promise rejected with a type
    error. *)
Theorem asyncify_list_wraps_non_function (chain proto : obj) (key : string)
    (v : value) :
  get proto chain key = v ->
  truthy v = true ->
  is_function v = false ->
  let proto' := asyncify_pass (VArr [VStr key]) chain proto in
  get proto' chain key = VWrapped v VUndef true /\
  forall (behave : nat -> list value -> outcome) (args : list value),
    finish (invoke behave (get proto' chain key) args)
    = Return (VPromise (Rejected type_error)).
Proof.
  intros Hv Ht Hf. cbn zeta.
  assert (Hget : get (asyncify_pass (VArr [VStr key]) chain proto) chain key
                 = VWrapped v VUndef true).
  { unfold asyncify_pass. simpl. unfold asyncify_named. rewrite Hv, Ht.
    assert (Hc : convertible v = true) by (by destruct v).
    rewrite Hc. simpl. unfold convert. by rewrite get_set, String.eqb_refl. }
  split; [done|]. intros behave args. rewrite Hget. cbn [invoke].
  assert (Hthrow : forall a, invoke behave v a = Outcome [] [] (Throw type_error))
    by (intros a; by destruct v).
  rewrite !Hthrow. by destruct (is_function (default VUndef (last args))).
Qed.

Lemma asyncify_list_wraps_non_function_witness :
  get [("count", VNum 5)] [] "count" = VNum 5 /\
  truthy (VNum 5) = true /\ is_function (VNum 5) = false /\
  get (asyncify_pass (VArr [VStr "count"]) [] [("count", VNum 5)]) [] "count"
  = VWrapped (VNum 5) VUndef true.
Proof.
  split; [reflexivity|]. split; [reflexivity|]. split; [reflexivity|].
  exact (proj1 (asyncify_list_wraps_non_function [] [("count", VNum 5)] "count"
                  (VNum 5) eq_refl eq_refl eq_refl)).
Defined.

(** ** The asyncify pass: what each form of the directive selects *)

Lemma own_loop_get (select : string -> value -> bool) (chain proto : obj)
    (key : string) :
  let v := get proto chain key in
  let v' := get (fold_left (asyncify_own select chain) (own_keys proto) proto)
              chain key in
  (key ∈ own_keys proto -> own_test select key v = true ->
   v' = VWrapped v VUndef true) /\
  (key ∉ own_keys proto \/ own_test select key v = false -> v' = v).
Proof.
  cbn zeta.
  change (asyncify_own select chain)
    with (round id (fun _ => VUndef) (own_test select) chain).
  rewrite rounds_get by apply own_test_convertible. cbn zeta.
  destruct (find (fun k => String.eqb (id k) key) (own_keys proto)) as [k|] eqn:Hf.
  - apply find_some in Hf as [Hin Hk]. apply String.eqb_eq in Hk.
    unfold id in Hk. subst k. apply list_elem_of_In in Hin.
    split.
    + intros _ ->. done.
    + intros [Hn| ->]; done.
  - split.
    + intros Hin _. exfalso. apply list_elem_of_In in Hin.
      apply (find_none _ _ Hf) in Hin. unfold id in Hin.
      by rewrite String.eqb_refl in Hin.
    + done.
Qed.

Lemma own_get_keys (o : obj) (k : string) :
  own_get o k = None <-> k ∉ own_keys o.
Proof.
  unfold own_keys. induction o as [|[k0 v0] o IH]; simpl.
  - split; [intros _; apply not_elem_of_nil|done].
  - destruct (String.eqb k0 k) eqn:E.
    + apply String.eqb_eq in E. subst k0. split; [done|].
      intros Hn. exfalso. apply Hn. apply elem_of_cons. by left.
    + apply String.eqb_neq in E. rewrite IH, elem_of_cons.
      split; [intros Hn [->|H]; done|tauto].
Qed.

(** X12.  When the directive is a pattern, the pass converts exactly
    the own properties of the instance template whose name the pattern
    matches and that are functions, not named [__name], [constructor]
    or [prototype], not marked and not natively asynchronous; it never
    adds a property, so a matching method that is only inherited stays
    as it was. *)
Theorem asyncify_pattern_selects (test : string -> bool) (chain proto : obj)
    (key : string) :
  let proto' := asyncify_pass (VRegExp test) chain proto in
  let v := get proto chain key in
  let selected :=
    key ∈ own_keys proto /\ proto_reserved key = false /\ is_function v = true /\
    test key = true /\ async_marker v = false /\ is_async_function v = false in
  (selected -> get proto' chain key = VWrapped v VUndef true) /\
  (~ selected -> get proto' chain key = v) /\
  own_keys proto' = own_keys proto.
Proof.
  cbn zeta. unfold asyncify_pass. simpl.
  destruct (own_loop_get (fun key _ => test key) chain proto key) as [Hyes Hno].
  cbn zeta in Hyes, Hno.
  assert (Htest : own_test (fun key _ => test key) key (get proto chain key) = true
                  <-> proto_reserved key = false /\
                      is_function (get proto chain key) = true /\
                      test key = true /\ async_marker (get proto chain key) = false /\
                      is_async_function (get proto chain key) = false).
  { unfold own_test, convertible.
    rewrite !andb_true_iff, !negb_true_iff. tauto. }
  split; [|split].
  - intros [Hin Hsel]. apply Hyes; [done|]. by apply Htest.
  - intros Hn. apply Hno.
    destruct (decide (key ∈ own_keys proto)) as [Hin|Hnin]; [|by left].
    right. destruct (own_test _ key (get proto chain key)) eqn:Et; [|done].
    exfalso. apply Hn. split; [done|]. by apply Htest.
  - change (asyncify_own (fun key _ => test key) chain)
      with (round id (fun _ => VUndef) (own_test (fun key _ => test key)) chain).
    by apply rounds_own_keys.
Qed.

Lemma wrapper_differs (v n : value) (m : bool) : v <> VWrapped v n m.
Proof.
  revert n m. induction v; intros n' m' H; try discriminate H.
  injection H as H1 H2 H3. by eapply IHv1.
Qed.

(** X13.  When the directive is a list of names, a named method that
    the instance template only inherits is converted too, and the
    wrapper is installed as an own property that shadows the inherited
    original; the flag form of the directive leaves such a method
    alone. *)
Theorem asyncify_list_reaches_inherited (keys : list value) (flag : value)
    (chain proto : obj) (key : string) (v : value) :
  key ∈ map to_key keys ->
  own_get proto key = None ->
  own_get chain key = Some v ->
  truthy v = true ->
  convertible v = true ->
  own_get (asyncify_pass (VArr keys) chain proto) key = Some (VWrapped v VUndef true) /\
  (truthy flag = true -> is_object flag = false ->
   own_get (asyncify_pass flag chain proto) key = None /\
   get (asyncify_pass flag chain proto) chain key = v).
Proof.
  intros Hkey Hown Hchain Ht Hc.
  assert (Hget : get proto chain key = v).
  { unfold get. by rewrite Hown, Hchain. }
  split.
  - assert (Hg : get (asyncify_pass (VArr keys) chain proto) chain key
                 = VWrapped v VUndef true).
    { unfold asyncify_pass. simpl.
      change (fun p k => asyncify_named chain p (to_key k) VUndef)
        with (round to_key (fun _ : value => VUndef) named_test chain).
      rewrite rounds_get by apply named_test_convertible. cbn zeta.
      rewrite Hget.
      destruct (find (fun k => String.eqb (to_key k) key) keys) as [k|] eqn:Hf.
      - unfold named_test. by rewrite Ht, Hc.
      - exfalso. apply list_elem_of_fmap in Hkey as (k & -> & Hk).
        apply list_elem_of_In in Hk. apply (find_none _ _ Hf) in Hk.
        by rewrite String.eqb_refl in Hk. }
    unfold get in Hg.
    destruct (own_get (asyncify_pass (VArr keys) chain proto) key) as [w|] eqn:Hw.
    + by rewrite Hg.
    + rewrite Hchain in Hg. by destruct (wrapper_differs v VUndef true).
  - intros Hflag Hobj.
    assert (Hkeys : own_keys (asyncify_pass flag chain proto) = own_keys proto).
    { unfold asyncify_pass. rewrite Hflag, Hobj.
      change (asyncify_own (fun _ v => sniff_callback (source v)) chain)
        with (round id (fun _ => VUndef)
                (own_test (fun _ v => sniff_callback (source v))) chain).
      by apply rounds_own_keys. }
    assert (Hnone : own_get (asyncify_pass flag chain proto) key = None).
    { apply own_get_keys. rewrite Hkeys. by apply own_get_keys. }
    split; [done|]. unfold get. by rewrite Hnone, Hchain.
Qed.

Lemma asyncify_list_reaches_inherited_witness :
  "sleep" ∈ map to_key [VStr "sleep"] /\
  own_get sleeper_proto "sleep" = None /\
  own_get sleeper_chain "sleep" = Some sleep_fn /\
  own_get (asyncify_pass (VArr [VStr "sleep"]) sleeper_chain sleeper_proto) "sleep"
  = Some (VWrapped sleep_fn VUndef true) /\
  get (asyncify_pass (VBool true) sleeper_chain sleeper_proto) sleeper_chain "sleep"
  = sleep_fn.
Proof.
  assert (Hin : "sleep" ∈ map to_key [VStr "sleep"])
    by (apply list_elem_of_In; simpl; auto).
  destruct (asyncify_list_reaches_inherited [VStr "sleep"] (VBool true)
              sleeper_chain sleeper_proto "sleep" sleep_fn
              Hin eq_refl eq_refl eq_refl eq_refl) as [Hlist Hflag].
  split; [exact Hin|]. split; [reflexivity|]. split; [reflexivity|].
  split; [exact Hlist|]. exact (proj2 (Hflag eq_refl eq_refl)).
Defined.

Lemma find_own_get (o : obj) (k : string) (n : value) :
  own_get o k = Some n ->
  exists k', find (fun kv : string * value => String.eqb (fst kv) k) o = Some (k', n).
Proof.
  induction o as [|[k0 v0] o IH]; simpl; [done|].
  destruct (String.eqb k0 k); [|done]. intros [= ->]. eauto.
Qed.

(** X14.  When the directive is a mapping, the method it names is
    converted with the field names the mapping gives for it, and a
    call of the installed method without a trailing callable resolves
    with the results packed under those names. *)
Theorem asyncify_mapping_end_to_end (behave : nat -> list value -> outcome)
    (entries chain proto : obj) (key : string) (names : list string)
    (v : value) (args c : list value) :
  own_get entries key = Some (VArr (map VStr names)) ->
  get proto chain key = v ->
  truthy v = true ->
  convertible v = true ->
  is_function (default VUndef (last args)) = false ->
  first_call (invoke behave v (args ++ [VCompletion (VArr (map VStr names))]))
  = Some c ->
  truthy (hd VUndef c) = false ->
  let method := get (asyncify_pass (VObj entries) chain proto) chain key in
  method = VWrapped v (VArr (map VStr names)) true /\
  finish (invoke behave method args)
  = Return (VPromise (Resolved (VObj (pack names (tl c))))).
Proof.
  intros Hentry Hv Ht Hc Hlast Hfirst Herr. cbn zeta.
  assert (Hm : get (asyncify_pass (VObj entries) chain proto) chain key
               = VWrapped v (VArr (map VStr names)) true).
  { unfold asyncify_pass. simpl.
    change (fun p kv => asyncify_named chain p (fst kv) (snd kv))
      with (round (fst : string * value -> string) snd named_test chain).
    rewrite rounds_get by apply named_test_convertible. cbn zeta.
    destruct (find_own_get _ _ _ Hentry) as (k' & ->).
    rewrite Hv. unfold named_test. by rewrite Ht, Hc. }
  split; [done|]. rewrite Hm.
  change (VWrapped v (VArr (map VStr names)) true)
    with (converted v (VArr (map VStr names)) true).
  rewrite invoke_converted_promise by done. cbn [finish]. do 2 f_equal.
  apply (executor_result_first _ _ c); [done| |done].
  unfold complete. rewrite Herr. cbn [truthy]. by rewrite to_key_names.
Qed.

Lemma asyncify_mapping_end_to_end_witness :
  own_get [("pour", amount_units)] "pour"
  = Some (VArr (map VStr ["amount"; "units"])) /\
  finish (invoke pour_behave
            (get (asyncify_pass (VObj [("pour", amount_units)]) []
                    [("pour", pour_fn)]) [] "pour") [])
  = Return (VPromise (Resolved (VObj [("amount", VNum 8); ("units", VStr "oz")]))).
Proof.
  split; [reflexivity|].
  exact (proj2 (asyncify_mapping_end_to_end pour_behave [("pour", amount_units)]
                  [] [("pour", pour_fn)] "pour" ["amount"; "units"] pour_fn []
                  [VNull; VNum 8; VStr "oz"]
                  eq_refl eq_refl eq_refl eq_refl eq_refl eq_refl eq_refl)).
Defined.

(** X15.  Names that the directive selects but for which the instance
    template has no truthy property are skipped: when that holds of
    every name of a list, or of a mapping, the pass leaves the template
    exactly as it was. *)
Theorem asyncify_skips_missing (keys : list value) (entries chain proto : obj) :
  (forall k, k ∈ keys -> truthy (get proto chain (to_key k)) = false) ->
  (forall kv, kv ∈ entries -> truthy (get proto chain (fst kv)) = false) ->
  asyncify_pass (VArr keys) chain proto = proto /\
  asyncify_pass (VObj entries) chain proto = proto.
Proof.
  intros Hkeys Hentries. unfold asyncify_pass. simpl. split.
  - change (fun p k => asyncify_named chain p (to_key k) VUndef)
      with (round to_key (fun _ : value => VUndef) named_test chain).
    apply rounds_settled; [apply named_test_convertible|].
    intros k Hk. unfold named_test. by rewrite (Hkeys k Hk).
  - change (fun p kv => asyncify_named chain p (fst kv) (snd kv))
      with (round (fst : string * value -> string) snd named_test chain).
    apply rounds_settled; [apply named_test_convertible|].
    intros kv Hkv. unfold named_test. by rewrite (Hentries kv Hkv).
Qed.

Lemma asyncify_skips_missing_witness :
  asyncify_pass (VArr [VStr "snore"]) sleeper_chain sleeper_proto = sleeper_proto /\
  asyncify_pass (VObj [("snore", amount_units)]) sleeper_chain sleeper_proto
  = sleeper_proto.
Proof.
  apply (asyncify_skips_missing [VStr "snore"] [("snore", amount_units)]
           sleeper_chain sleeper_proto).
  - intros k Hk. apply list_elem_of_In in Hk. simpl in Hk.
    destruct Hk as [<-|[]]. reflexivity.
  - intros kv Hkv. apply list_elem_of_In in Hkv. simpl in Hkv.
    destruct Hkv as [<-|[]]. reflexivity.
Defined.

(** ** Mixins: any number of them, and the entries that are not classes *)

Lemma merge_members_absent (reserved : string -> bool) (chain target src : obj)
    (k : string) :
  own_get target k = None ->
  is_Some (own_get chain k) \/ own_get src k = None ->
  own_get (merge_members reserved chain target src) k = None.
Proof.
  unfold merge_members. revert target.
  induction src as [|[k' v'] src IH]; intros target Ht Hwhy; simpl; [done|].
  destruct (String.eqb k' k) eqn:Ek.
  - apply String.eqb_eq in Ek. subst k'.
    destruct (negb (reserved k) && negb (has_key target chain k)) eqn:E.
    + exfalso. apply andb_prop in E as [_ E]. apply negb_true_iff in E.
      unfold has_key in E. rewrite Ht in E.
      destruct Hwhy as [[w Hw]|Hsrc].
      * by rewrite Hw in E.
      * simpl in Hsrc. by rewrite String.eqb_refl in Hsrc.
    + apply IH; [done|]. destruct Hwhy as [Hc|Hsrc]; [by left|].
      simpl in Hsrc. by rewrite String.eqb_refl in Hsrc.
  - assert (Hwhy' : is_Some (own_get chain k) \/ own_get src k = None).
    { destruct Hwhy as [Hc|Hsrc]; [by left|right].
      simpl in Hsrc. by rewrite Ek in Hsrc. }
    destruct (negb (reserved k') && negb (has_key target chain k')).
    + apply IH; [|done]. rewrite own_get_set_ne; [done|].
      intros ->. by rewrite String.eqb_refl in Ek.
    + by apply IH.
Qed.

Lemma merge_mixin_ok (c c' : construct) (m : value) :
  merge_mixin c m = Ok c' -> c' = merge_from c (template_of m) (statics_of m).
Proof.
  destruct m; simpl; intros H; try done.
  - destruct (get fields [] "prototype"); try done. by simplify_eq.
  - by simplify_eq.
Qed.

Section Picked.

(** The instance template or the static table, as the two copy loops
    treat them alike. *)
Variable reserved : string -> bool.
Variable pick pick_chain : construct -> obj.
Variable part : value -> obj.

Hypothesis Hstep :
  forall c m c', merge_mixin c m = Ok c' ->
    pick c' = merge_members reserved (pick_chain c) (pick c) (part m) /\
    pick_chain c' = pick_chain c.

Lemma merge_mixins_pick_keeps (mixins : list value) (c c' : construct)
    (k : string) (v : value) :
  merge_mixins c mixins = Ok c' ->
  own_get (pick c) k = Some v -> own_get (pick c') k = Some v.
Proof.
  revert c. induction mixins as [|m mixins IH]; intros c H Hk; simpl in H.
  - by simplify_eq.
  - destruct (merge_mixin c m) as [c1|e] eqn:Hm; [|done]. simpl in H.
    destruct (Hstep _ _ _ Hm) as [Hpick _].
    apply (IH c1 H). rewrite Hpick. by apply merge_members_keeps.
Qed.

Lemma merge_mixins_first_provider (mixins : list value) (c c' : construct)
    (k : string) :
  merge_mixins c mixins = Ok c' ->
  reserved k = false ->
  has_key (pick c) (pick_chain c) k = false ->
  own_get (pick c') k = first_provider k (map part mixins).
Proof.
  revert c. induction mixins as [|m mixins IH]; intros c H Hr Habs; simpl in H.
  - simplify_eq. simpl. unfold has_key in Habs.
    by destruct (own_get (pick c') k).
  - destruct (merge_mixin c m) as [c1|e] eqn:Hm; [|done]. simpl in H.
    destruct (Hstep _ _ _ Hm) as [Hpick Hchain]. simpl.
    destruct (own_get (part m) k) as [v|] eqn:Hsrc.
    + apply (merge_mixins_pick_keeps mixins c1); [done|].
      rewrite Hpick. by apply merge_members_adds.
    + apply (IH c1 H Hr).
      assert (Hown : own_get (pick c) k = None).
      { unfold has_key in Habs. by destruct (own_get (pick c) k). }
      unfold has_key. rewrite Hchain, Hpick.
      rewrite merge_members_absent by auto.
      unfold has_key in Habs. rewrite Hown in Habs. done.
Qed.

End Picked.

(** X16.  For a mixin list of any length, a member name that the copy
    loops do not skip and that the target neither declares nor
    inherits ends up with the value of the first mixin in the list that
    has it, and stays absent when none has it; the same holds of the
    static table. *)
Theorem merge_mixins_first_wins (mixins : list value) (c c' : construct)
    (k : string) :
  merge_mixins c mixins = Ok c' ->
  (proto_reserved k = false ->
   has_key (c_proto c) (c_proto_chain c) k = false ->
   own_get (c_proto c') k = first_provider k (map template_of mixins)) /\
  (static_reserved k = false ->
   has_key (c_static c) (c_static_chain c) k = false ->
   own_get (c_static c') k = first_provider k (map statics_of mixins)).
Proof.
  intros H. split; intros Hr Habs.
  - apply (merge_mixins_first_provider proto_reserved c_proto c_proto_chain
             template_of) with (c := c); try done.
    intros c0 m c1 Hm. by rewrite (merge_mixin_ok _ _ _ Hm).
  - apply (merge_mixins_first_provider static_reserved c_static c_static_chain
             statics_of) with (c := c); try done.
    intros c0 m c1 Hm. by rewrite (merge_mixin_ok _ _ _ Hm).
Qed.

Lemma merge_mixins_first_wins_witness :
  merge_mixins bare_target [mixin_C; mixin_A; mixin_B]
  = Ok (Construct "class T {" [("kind", VStr "c")] []
          [("flavor", VStr "sweet"); ("size", VNum 8)] []) /\
  own_get [("flavor", VStr "sweet"); ("size", VNum 8)] "size" = Some (VNum 8).
Proof.
  split; [reflexivity|].
  exact (proj1 (merge_mixins_first_wins [mixin_C; mixin_A; mixin_B] bare_target
                  (Construct "class T {" [("kind", VStr "c")] []
                     [("flavor", VStr "sweet"); ("size", VNum 8)] [])
                  "size" eq_refl) eq_refl eq_refl).
Defined.



(** ** The builder as a whole *)

Lemma Class_steps (EventEmitter : value) (args args' : obj) (c c' : construct) :
  Class EventEmitter args c = Ok (args', c') ->
  exists mixins c1 c2,
    assemble_mixins EventEmitter HookHelper args = Ok (mixins, args') /\
    merge_mixins
      (with_proto (populate_static args c)
         (asyncify_pass (get args [] "__asyncify")
            (c_proto_chain (populate_static args c))
            (c_proto (populate_static args c)))) mixins = Ok c1 /\
    finalize_hooks args' c1 = Ok c2 /\
    c' = with_proto c2 (instance_defaults args' (c_proto c2)).
Proof.
  unfold Class. intros H.
  apply bind_ok in H as ([mixins args1] & Hma & H).
  apply bind_ok in H as (c1 & Hmerge & H).
  apply bind_ok in H as (c2 & Hfin & H).
  simpl in *. simplify_eq. eauto 10.
Qed.

Lemma assemble_mixins_args (EventEmitter HH : value) (args args' : obj)
    (mixins : list value) :
  assemble_mixins EventEmitter HH args = Ok (mixins, args') ->
  own_keys args' = own_keys args /\
  (forall k, k <> "__mixins" -> own_get args' k = own_get args k).
Proof.
  unfold assemble_mixins. intros H.
  destruct (truthy (get args [] "__mixins")); [|by simplify_eq].
  destruct (get args [] "__mixins") as [| |b|n|s|items|fields|t|st|i src a m|o an m|an|i|src s sc p pc]
    eqn:Hg;
    try (destruct (truthy (get args [] "__events") || truthy (get args [] "__hooks"));
         by simplify_eq).
  destruct (truthy (get args [] "__events") || truthy (get args [] "__hooks"));
    simplify_eq; [|done].
  split.
  - apply own_keys_set_own. apply dec_stable. intros Hn.
    apply own_get_keys in Hn. unfold get in Hg. rewrite Hn in Hg. done.
  - intros k Hk. by apply own_get_set_ne.
Qed.

Lemma fold_set_other (keep : string -> bool) (a p : obj) (k : string) :
  k ∉ own_keys a ->
  own_get (fold_left (fun p kv => if keep (fst kv)
                                  then own_set p (fst kv) (snd kv) else p) a p) k
  = own_get p k.
Proof.
  revert p. induction a as [|[k0 v0] a IH]; intros p Hk; simpl; [done|].
  unfold own_keys in Hk. simpl in Hk. apply not_elem_of_cons in Hk as [Hne Hk].
  rewrite IH by done. destruct (keep k0); [|done].
  by apply own_get_set_ne.
Qed.

Lemma fold_set_copies (keep : string -> bool) (a p : obj) (k : string) (v : value) :
  NoDup (own_keys a) ->
  own_get a k = Some v ->
  keep k = true ->
  own_get (fold_left (fun p kv => if keep (fst kv)
                                  then own_set p (fst kv) (snd kv) else p) a p) k
  = Some v.
Proof.
  revert p. induction a as [|[k0 v0] a IH]; intros p Hnd Hk Hkeep; simpl in *;
    [done|].
  unfold own_keys in Hnd. simpl in Hnd. apply NoDup_cons in Hnd as [Hk0 Hnd].
  destruct (String.eqb k0 k) eqn:E.
  - apply String.eqb_eq in E. simplify_eq. rewrite Hkeep.
    rewrite fold_set_other by done. apply own_get_set_eq.
  - by apply IH.
Qed.

(** X18.  Every ordinary key of the configuration is on the instance
    template after the augmentation, with the configuration's value,
    whatever the class or a mixin defines under that name: a default
    replaces a method of the same name. *)
Theorem Class_defaults_win (EventEmitter : value) (args args' : obj)
    (c c' : construct) (k : string) (v : value) :
  NoDup (own_keys args) ->
  Class EventEmitter args c = Ok (args', c') ->
  own_get args k = Some v ->
  meta_key k = false ->
  k <> "__mixins" ->
  own_get (c_proto c') k = Some v.
Proof.
  intros Hnd HClass Hk Hmeta Hne.
  destruct (Class_steps _ _ _ _ _ HClass) as (mixins & c1 & c2 & Hasm & _ & _ & ->).
  destruct (assemble_mixins_args _ _ _ _ _ Hasm) as [Hkeys Hsame].
  simpl. unfold instance_defaults.
  apply (fold_set_copies (fun key => negb (meta_key key))).
  - by rewrite Hkeys.
  - by rewrite Hsame.
  - by rewrite Hmeta.
Qed.

Lemma Class_defaults_win_witness :
  NoDup (own_keys clash_config) /\
  exists args' c',
    Class VUndef clash_config clash_target = Ok (args', c') /\
    own_get (c_proto clash_target) "name_of" = Some foo_fn /\
    own_get (c_proto c') "name_of" = Some (VStr "anonymous").
Proof.
  assert (Hnd : NoDup (own_keys clash_config)).
  { apply NoDup_ListNoDup. repeat constructor; simpl; intuition discriminate. }
  split; [exact Hnd|].
  destruct (Class VUndef clash_config clash_target) as [[args' c']|e] eqn:HClass;
    [|discriminate HClass].
  exists args', c'. split; [reflexivity|]. split; [reflexivity|].
  apply (Class_defaults_win VUndef clash_config args' clash_target c' "name_of"
           (VStr "anonymous") Hnd HClass eq_refl eq_refl).
  discriminate.
Defined.

Lemma populate_static_statics (args : obj) (c : construct) (entries : obj)
    (k : string) (v : value) :
  get args [] "__static" = VObj entries ->
  NoDup (own_keys entries) ->
  own_get entries k = Some v ->
  own_get (c_static (populate_static args c)) k = Some v.
Proof.
  intros Hst Hnd Hk. unfold populate_static. rewrite Hst. simpl.
  by apply (fold_set_copies (fun _ => true)).
Qed.

Lemma finalize_hooks_static (args : obj) (c c' : construct) :
  finalize_hooks args c = Ok c' -> c_static c' = c_static c.
Proof.
  unfold finalize_hooks. destruct (truthy (get args [] "__hooks")); [|by intros [= <-]].
  destruct (get (c_proto c) (c_proto_chain c) "fireHook"); try done;
    destruct (async_marker _); by intros [= <-].
Qed.

(** X19.  Every entry of the static directive (the constructor's
    built-in [name], [length] and [prototype] apart) is in the
    construct's static table after the augmentation, with the
    directive's value: it replaces a static the class already had under
    that name, and no mixin's static of that name displaces it. *)
Theorem Class_static_wins (EventEmitter : value) (args args' entries : obj)
    (c c' : construct) (k : string) (v : value) :
  get args [] "__static" = VObj entries ->
  NoDup (own_keys entries) ->
  own_get entries k = Some v ->
  static_reserved k = false ->
  Class EventEmitter args c = Ok (args', c') ->
  own_get (c_static c') k = Some v.
Proof.
  intros Hst Hnd Hk _ HClass.
  destruct (Class_steps _ _ _ _ _ HClass) as (mixins & c1 & c2 & _ & Hmerge & Hfin & ->).
  simpl. rewrite (finalize_hooks_static _ _ _ Hfin).
  destruct (merge_mixins_keeps _ _ _ Hmerge) as [_ Hs]. apply Hs. simpl.
  by eapply populate_static_statics.
Qed.

Lemma Class_static_wins_witness :
  get clash_config [] "__static" = VObj [("types", VArr [VStr "Lager"; VStr "Stout"])] /\
  exists args' c',
    Class VUndef clash_config clash_target = Ok (args', c') /\
    own_get (c_static clash_target) "types" = Some (VArr [VStr "Ale"]) /\
    own_get (c_static c') "types" = Some (VArr [VStr "Lager"; VStr "Stout"]).
Proof.
  split; [reflexivity|].
  destruct (Class VUndef clash_config clash_target) as [[args' c']|e] eqn:HClass;
    [|discriminate HClass].
  exists args', c'. split; [reflexivity|]. split; [reflexivity|].
  apply (Class_static_wins VUndef clash_config args'
           [("types", VArr [VStr "Lager"; VStr "Stout"])] clash_target c' "types"
           (VArr [VStr "Lager"; VStr "Stout"]) eq_refl);
    [|reflexivity|reflexivity|exact HClass].
  apply NoDup_ListNoDup. repeat constructor; simpl; intuition.
Defined.

(** X20.  Without the events and the hooks flag the builder leaves the
    caller's configuration as it was: the mixin list is only read. *)
Theorem Class_leaves_config (EventEmitter : value) (args args' : obj)
    (c c' : construct) :
  truthy (get args [] "__events") = false ->
  truthy (get args [] "__hooks") = false ->
  Class EventEmitter args c = Ok (args', c') ->
  args' = args.
Proof.
  intros Hev Hhk HClass.
  destruct (Class_steps _ _ _ _ _ HClass) as (mixins & c1 & c2 & Hasm & _).
  unfold assemble_mixins in Hasm. rewrite Hev, Hhk in Hasm. simpl in Hasm.
  destruct (truthy (get args [] "__mixins")); [|by simplify_eq].
  destruct (get args [] "__mixins"); by simplify_eq.
Qed.

Lemma Class_leaves_config_witness :
  truthy (get clash_config [] "__events") = false /\
  truthy (get clash_config [] "__hooks") = false /\
  exists c', Class VUndef clash_config clash_target = Ok (clash_config, c').
Proof.
  split; [reflexivity|]. split; [reflexivity|].
  destruct (Class VUndef clash_config clash_target) as [[args' c']|e] eqn:HClass;
    [|discriminate HClass].
  exists c'.
  by rewrite (Class_leaves_config VUndef clash_config args' clash_target c'
                eq_refl eq_refl HClass).
Defined.

Lemma rounds_absent {K : Type} (key_of : K -> string) (names_of : K -> value)
    (test : string -> value -> bool) (chain : obj) (ks : list K) (proto : obj)
    (k' : string) :
  (forall k, test k VUndef = false) ->
  own_get chain k' = None ->
  own_get proto k' = None ->
  own_get (fold_left (round key_of names_of test chain) ks proto) k' = None.
Proof.
  intros Hundef Hchain. revert proto.
  induction ks as [|k ks IH]; intros proto Hown; simpl; [done|].
  apply IH. unfold round.
  destruct (test (key_of k) (get proto chain (key_of k))) eqn:Et; [|done].
  unfold convert. rewrite own_get_set_ne; [done|].
  intros Heq. subst k'. unfold get in Et. rewrite Hown, Hchain in Et.
  by rewrite Hundef in Et.
Qed.

Lemma asyncify_pass_absent (directive : value) (chain proto : obj) (k : string) :
  has_key proto chain k = false ->
  has_key (asyncify_pass directive chain proto) chain k = false.
Proof.
  intros Habs.
  assert (Hown : own_get proto k = None).
  { unfold has_key in Habs. by destruct (own_get proto k). }
  assert (Hchain : own_get chain k = None).
  { unfold has_key in Habs. rewrite Hown in Habs. by destruct (own_get chain k). }
  assert (Hnamed : forall k0, named_test k0 VUndef = false) by done.
  assert (Hsel : forall select k0, own_test select k0 VUndef = false).
  { intros select k0. unfold own_test. simpl. by rewrite andb_false_r. }
  assert (Hgoal : own_get (asyncify_pass directive chain proto) k = None).
  { unfold asyncify_pass. destruct (truthy directive); [|done].
    destruct (is_object directive).
    - destruct directive as [| |b|n|s|items|fields|test|st|id src a m|orig an m|an|i|src s sc p pc];
        try (apply (rounds_absent (fst : string * value -> string) snd named_test);
             done).
      + by apply (rounds_absent to_key (fun _ => VUndef) named_test).
      + by apply (rounds_absent id (fun _ => VUndef) (own_test (fun key _ => test key))).
    - by apply (rounds_absent id (fun _ => VUndef)
                  (own_test (fun _ v => sniff_callback (source v)))). }
  unfold has_key. by rewrite Hgoal, Hchain.
Qed.

Lemma finalize_hooks_other (args : obj) (c c' : construct) (k : string) :
  finalize_hooks args c = Ok c' ->
  k <> "fireHook" ->
  own_get (c_proto c') k = own_get (c_proto c) k /\
  c_proto_chain c' = c_proto_chain c.
Proof.
  unfold finalize_hooks. intros H Hk.
  destruct (truthy (get args [] "__hooks")); [|by simplify_eq].
  destruct (get (c_proto c) (c_proto_chain c) "fireHook"); try done;
    destruct (async_marker _); simplify_eq; try done;
    simpl; unfold convert; by rewrite own_get_set_ne.
Qed.

Lemma merge_mixins_chain (mixins : list value) (c c' : construct) :
  merge_mixins c mixins = Ok c' -> c_proto_chain c' = c_proto_chain c.
Proof.
  revert c. induction mixins as [|m mixins IH]; intros c H; simpl in H.
  - by simplify_eq.
  - destruct (merge_mixin c m) as [c1|e] eqn:Hm; [|done]. simpl in H.
    rewrite (IH _ H). by rewrite (merge_mixin_ok _ _ _ Hm).
Qed.

(** What reaches the instance template from the mixins, before the
    hook finalisation and the defaults. *)
Lemma Class_merged (EventEmitter : value) (args args' : obj) (c c' : construct) :
  Class EventEmitter args c = Ok (args', c') ->
  exists mixins c1 c2,
    assemble_mixins EventEmitter HookHelper args = Ok (mixins, args') /\
    finalize_hooks args' c1 = Ok c2 /\
    c' = with_proto c2 (instance_defaults args' (c_proto c2)) /\
    c_proto_chain c1 = c_proto_chain c /\
    forall k, proto_reserved k = false ->
              has_key (c_proto c) (c_proto_chain c) k = false ->
              own_get (c_proto c1) k = first_provider k (map template_of mixins).
Proof.
  intros HClass.
  destruct (Class_steps _ _ _ _ _ HClass)
    as (mixins & c1 & c2 & Hasm & Hmerge & Hfin & ->).
  exists mixins, c1, c2. split; [done|]. split; [done|]. split; [done|].
  assert (Hchain0 : c_proto_chain (populate_static args c) = c_proto_chain c).
  { unfold populate_static. by destruct (truthy (get args [] "__static")). }
  assert (Hproto0 : c_proto (populate_static args c) = c_proto c).
  { unfold populate_static. by destruct (truthy (get args [] "__static")). }
  split.
  - rewrite (merge_mixins_chain _ _ _ Hmerge). simpl. done.
  - intros k Hr Habs.
    apply (merge_mixins_first_provider proto_reserved c_proto c_proto_chain
             template_of) with (c := with_proto (populate_static args c)
               (asyncify_pass (get args [] "__asyncify")
                  (c_proto_chain (populate_static args c))
                  (c_proto (populate_static args c)))); try done.
    + intros c0 m c3 Hm. by rewrite (merge_mixin_ok _ _ _ Hm).
    + simpl. rewrite Hchain0, Hproto0. by apply asyncify_pass_absent.
Qed.

(** X21.  The asyncify pass runs before the mixins are merged, so a
    method that only a mixin supplies reaches the instance template as
    the mixin has it, unconverted, whatever the asyncify directive
    says ([fireHook] apart, which the hook finalisation converts). *)
Theorem Class_mixin_methods_as_is (EventEmitter : value) (args args' : obj)
    (c c' : construct) (mixins : list value) (k : string) (v : value) :
  Class EventEmitter args c = Ok (args', c') ->
  assemble_mixins EventEmitter HookHelper args = Ok (mixins, args') ->
  proto_reserved k = false ->
  k <> "fireHook" ->
  has_key (c_proto c) (c_proto_chain c) k = false ->
  own_get args k = None ->
  first_provider k (map template_of mixins) = Some v ->
  own_get (c_proto c') k = Some v.
Proof.
  intros HClass Hasm Hr Hfire Habs Hargs Hprov.
  destruct (Class_merged _ _ _ _ _ HClass)
    as (mixins' & c1 & c2 & Hasm' & Hfin & -> & Hchain & Hmerged).
  rewrite Hasm in Hasm'. injection Hasm' as <-.
  destruct (finalize_hooks_other _ _ _ k Hfin Hfire) as [Hk _].
  simpl. unfold instance_defaults.
  rewrite (fold_set_other (fun key => negb (meta_key key))).
  - rewrite Hk, Hmerged by done. done.
  - destruct (assemble_mixins_args _ _ _ _ _ Hasm) as [Hkeys _].
    rewrite Hkeys. by apply own_get_keys.
Qed.

Lemma Class_mixin_methods_as_is_witness :
  sniff_callback (source sleep_fn) = true /\
  exists args' c',
    Class VUndef auto_config napper_target = Ok (args', c') /\
    own_get (c_proto c') "nap" = Some (VWrapped nap_fn VUndef true) /\
    own_get (c_proto c') "sleep" = Some sleep_fn.
Proof.
  split; [reflexivity|].
  destruct (Class VUndef auto_config napper_target) as [[args' c']|e] eqn:HClass;
    [|discriminate HClass].
  exists args', c'. split; [reflexivity|].
  split; [injection HClass as <- <-; reflexivity|].
  assert (Hasm : assemble_mixins VUndef HookHelper auto_config
                 = Ok ([HookHelper; mixin_sleeper], args')).
  { injection HClass as <- <-. reflexivity. }
  apply (Class_mixin_methods_as_is VUndef auto_config args' napper_target c'
           [HookHelper; mixin_sleeper] "sleep" sleep_fn HClass Hasm);
    try reflexivity.
  discriminate.
Defined.

Lemma assemble_mixins_hooks_first (EventEmitter HH : value) (args args' : obj)
    (mixins : list value) :
  truthy (get args [] "__hooks") = true ->
  assemble_mixins EventEmitter HH args = Ok (mixins, args') ->
  exists rest, mixins = HH :: rest.
Proof.
  unfold assemble_mixins. intros Hhk H. rewrite Hhk in H.
  rewrite orb_true_r in H.
  destruct (truthy (get args [] "__mixins")).
  - destruct (get args [] "__mixins"); simplify_eq. simpl. eauto.
  - simplify_eq. simpl. eauto.
Qed.

(** X22.  With the hooks flag set, a class that has no hook operations
    of its own, augmented with a configuration that has no such keys,
    gets [registerHook] and [removeHook] as the dispatcher defines
    them and [fireHook] as one marked wrapper around the dispatcher's,
    so that it can be awaited. *)
Theorem Class_installs_hooks (EventEmitter : value) (args args' : obj)
    (c c' : construct) :
  truthy (get args [] "__hooks") = true ->
  (forall k, k ∈ ["registerHook"; "removeHook"; "fireHook"] ->
     has_key (c_proto c) (c_proto_chain c) k = false /\ own_get args k = None) ->
  Class EventEmitter args c = Ok (args', c') ->
  own_get (c_proto c') "registerHook" = Some registerHook_fn /\
  own_get (c_proto c') "removeHook" = Some removeHook_fn /\
  own_get (c_proto c') "fireHook" = Some (VWrapped fireHook_fn VUndef true).
Proof.
  intros Hhk Hfree HClass.
  destruct (Class_merged _ _ _ _ _ HClass)
    as (mixins & c1 & c2 & Hasm & Hfin & -> & Hchain & Hmerged).
  destruct (assemble_mixins_hooks_first _ _ _ _ _ Hhk Hasm) as [rest ->].
  destruct (assemble_mixins_args _ _ _ _ _ Hasm) as [Hkeys Hsame].
  assert (Hdefaults : forall k p, k ∈ ["registerHook"; "removeHook"; "fireHook"] ->
            own_get (instance_defaults args' p) k = own_get p k).
  { intros k p Hk. unfold instance_defaults.
    apply (fold_set_other (fun key => negb (meta_key key))).
    rewrite Hkeys. apply own_get_keys. by apply Hfree. }
  assert (Hc1 : forall k fn, k ∈ ["registerHook"; "removeHook"; "fireHook"] ->
            own_get (template_of HookHelper) k = Some fn ->
            proto_reserved k = false ->
            own_get (c_proto c1) k = Some fn).
  { intros k fn Hk Hfn Hr. rewrite Hmerged; [|done|by apply Hfree].
    simpl. simpl in Hfn. by rewrite Hfn. }
  assert (H1 : "registerHook" ∈ ["registerHook"; "removeHook"; "fireHook"])
    by (apply list_elem_of_In; simpl; auto).
  assert (H2 : "removeHook" ∈ ["registerHook"; "removeHook"; "fireHook"])
    by (apply list_elem_of_In; simpl; auto).
  assert (H3 : "fireHook" ∈ ["registerHook"; "removeHook"; "fireHook"])
    by (apply list_elem_of_In; simpl; auto).
  simpl. rewrite !Hdefaults by done.
  split; [|split].
  - destruct (finalize_hooks_other _ _ _ "registerHook" Hfin) as [-> _]; [done|].
    by apply Hc1.
  - destruct (finalize_hooks_other _ _ _ "removeHook" Hfin) as [-> _]; [done|].
    by apply Hc1.
  - pose proof (Hc1 "fireHook" fireHook_fn H3 eq_refl eq_refl) as Hfh.
    unfold finalize_hooks in Hfin.
    assert (Hhk' : truthy (get args' [] "__hooks") = true).
    { unfold get in *. rewrite Hsame by done. done. }
    rewrite Hhk' in Hfin. unfold get in Hfin at 1. rewrite Hfh in Hfin.
    simpl in Hfin. injection Hfin as <-. simpl. unfold convert.
    apply own_get_set_eq.
Qed.

Lemma Class_installs_hooks_witness :
  truthy (get auto_config [] "__hooks") = true /\
  exists args' c',
    Class VUndef auto_config napper_target = Ok (args', c') /\
    own_get (c_proto c') "fireHook" = Some (VWrapped fireHook_fn VUndef true).
Proof.
  split; [reflexivity|].
  destruct (Class VUndef auto_config napper_target) as [[args' c']|e] eqn:HClass;
    [|discriminate HClass].
  exists args', c'. split; [reflexivity|].
  apply (Class_installs_hooks VUndef auto_config args' napper_target c' eq_refl);
    [|exact HClass].
  intros k Hk. apply list_elem_of_In in Hk. simpl in Hk.
  destruct Hk as [<-|[<-|[<-|[]]]]; split; reflexivity.
Defined.

(** ** The callback-signature pattern: what it detects and what it skips *)









(** ** The hook dispatcher: listeners that do not complete *)

(** X25.  The dispatcher has no timeout: when the first listener
    returns without ever completing, the fire stays where it is however
    long the event loop runs; no later listener is started and the
    fire's callback is never invoked. *)
Theorem fireHook_stalls (behave : nat -> list value -> outcome)
    (hooks : registry) (name : string) (thingy h : value) (hs : list value)
    (fuel : nat) :
  listeners hooks name = Some (h :: hs) ->
  truthy h = true ->
  silent behave thingy h ->
  trace (fireHook behave hooks name thingy fuel) = [EvBegin 0; EvReturn] /\
  queue (fireHook behave hooks name thingy fuel) = [] /\
  callbacks (trace (fireHook behave hooks name thingy fuel)) = [].
Proof.
  intros Hl Ht Hsilent.
  assert (Hcall : fireHook_call behave hooks name thingy
                  = FireState 1 [] [EvBegin 0; EvReturn]).
  { unfold fireHook_call, iterator, handlers. rewrite Hl. simpl.
    rewrite Ht. unfold start_listener, silent in *.
    destruct (is_async_function h).
    - by rewrite Hsilent.
    - destruct Hsilent as (-> & -> & v & ->). done. }
  unfold fireHook. rewrite Hcall.
  assert (Hrun : run behave hooks name thingy fuel
                   (FireState 1 [] [EvBegin 0; EvReturn])
                 = FireState 1 [] [EvBegin 0; EvReturn]) by (by destruct fuel).
  rewrite Hrun. done.
Qed.

Lemma fireHook_stalls_witness :
  listeners (registered [forgetful_fn; quick_fn]) "x"
  = Some (forgetful_fn :: [quick_fn]) /\
  trace (fireHook faulty_behave (registered [forgetful_fn; quick_fn]) "x"
           (VStr "present") 6)
  = [EvBegin 0; EvReturn].
Proof.
  assert (Hl : listeners (registered [forgetful_fn; quick_fn]) "x"
               = Some (forgetful_fn :: [quick_fn])) by (vm_compute; reflexivity).
  split; [exact Hl|].
  apply (fireHook_stalls faulty_behave (registered [forgetful_fn; quick_fn]) "x"
           (VStr "present") forgetful_fn [quick_fn] 6 Hl eq_refl).
  unfold silent. simpl. eauto.
Defined.

(** X26.  An exception that the first callback-style listener throws
    before it has called back leaves [fireHook] as an exception: it is
    not handed to the fire's callback, which is never invoked, and no
    later listener is started. *)
Theorem fireHook_listener_throws (behave : nat -> list value -> outcome)
    (hooks : registry) (name : string) (thingy h e : value) (hs : list value)
    (fuel : nat) :
  listeners hooks name = Some (h :: hs) ->
  truthy h = true ->
  throws behave thingy h e ->
  trace (fireHook behave hooks name thingy fuel)
  = [EvBegin 0; EvThrow e; EvReturn] /\
  callbacks (trace (fireHook behave hooks name thingy fuel)) = [].
Proof.
  intros Hl Ht (Ha & Hsync & Hlater & Hfin).
  assert (Hcall : fireHook_call behave hooks name thingy
                  = FireState 1 [] [EvBegin 0; EvThrow e; EvReturn]).
  { unfold fireHook_call, iterator, handlers. rewrite Hl. simpl.
    rewrite Ht. unfold start_listener. rewrite Ha.
    cbn zeta in Hsync, Hlater, Hfin. by rewrite Hsync, Hlater, Hfin. }
  unfold fireHook. rewrite Hcall.
  assert (Hrun : run behave hooks name thingy fuel
                   (FireState 1 [] [EvBegin 0; EvThrow e; EvReturn])
                 = FireState 1 [] [EvBegin 0; EvThrow e; EvReturn])
    by (by destruct fuel).
  rewrite Hrun. done.
Qed.

Lemma fireHook_listener_throws_witness :
  listeners (registered [throwing_fn; quick_fn]) "x"
  = Some (throwing_fn :: [quick_fn]) /\
  trace (fireHook faulty_behave (registered [throwing_fn; quick_fn]) "x"
           (VStr "present") 6)
  = [EvBegin 0; EvThrow (VStr "oops"); EvReturn].
Proof.
  assert (Hl : listeners (registered [throwing_fn; quick_fn]) "x"
               = Some (throwing_fn :: [quick_fn])) by (vm_compute; reflexivity).
  split; [exact Hl|].
  apply (fireHook_listener_throws faulty_behave
           (registered [throwing_fn; quick_fn]) "x" (VStr "present")
           throwing_fn (VStr "oops") [quick_fn] 6 Hl eq_refl).
  unfold throws. simpl. done.
Defined.
